(** * The administration layer of observable objects

    A shallow embedding of [src/types/observableobject.ts]: the
    administration record of an observable object, the property
    installers, the accessor generators and the mutation router
    [setPropertyValue], with the properties the specification states
    about them.

    Conventions of the model.
    - Objects live on a heap indexed by their identity; a location that
      was never written holds an empty, extensible plain object.
    - The hidden [$mobx] field of an object is kept apart from its
      properties.  An administration lives in the field of the object
      that carries it and is known by that object: where the source
      passes [adm], the model passes the carrier, and [adm.target] is the
      field of the record, which [asObservableObject] sets to the carrier.
    - The plain objects the source uses as string-keyed tables
      ([adm.values] and the two memo tables of accessor configurations)
      are finite maps of their own entries.  A lookup that finds no entry
      finds what every plain object inherits from [Object.prototype]:
      under the name of one of its members, a value that is truthy and is
      neither a cell nor a configuration (see [table_get]).  The
      prototype is the one of the host, to which the program has added
      nothing.  An assignment [table[name] = x] is an entry of the map
      under every name; that the host, for the name [__proto__], keeps
      [x] as the parent of the table and not as an entry is not modelled.
    - The own properties of a target are a finite map.  A target inherits
      no accessor and no read-only member from its prototype, the
      accessor [__proto__] of the host apart, which is not modelled: an
      assignment to a property it does not own adds the property.
    - Interceptors are modelled by what they return for a pending change,
      listeners by their identity; every call of either is recorded in
      the event log of the world, next to the trace (spy) events and the
      commits of cells.  A callback that re-enters this module is not
      modelled.
    - The cells, the trace, the pipelines and the utilities are other
      modules of the repository.  What the specification says of them is
      modelled where this module needs it; the policy of the cells and
      the lazy initializers are parameters.  A cell is known by what its
      constructor stores and by how its [prepareNewValue] ends, with a
      value, with the sentinel or with an error; that a deep enhancer
      builds observable objects of its own through this module while it
      answers is not modelled.
    - Numbers are integers. *)

From Stdlib Require Import ZArith String List Bool.
From stdpp Require Import base option strings gmap list pretty.

Local Open Scope string_scope.

(** ** Values *)

(** Identity of an object on the heap. *)
Definition loc := positive.

(** Identity of a user function (getter or setter of a computed). *)
Definition fn := positive.

(** [IEnhancer]: a coercion strategy of a value cell, known by its
    identity; what it computes belongs to the cell (see [CellPolicy]). *)
Definition IEnhancer := N.

(** [ComputedValue] of [core/computedvalue]: the fields this module
    passes to the constructor or assigns afterwards. *)
Record ComputedValue := mkComputedValue {
  cv_getter : option fn;
  cv_scope : option loc;
  cv_compareStructural : bool;
  cv_name : string;
  cv_setter : option fn
}.

Inductive value :=
| VUndefined
| VNull
| VBool (b : bool)
| VNumber (n : Z)
| VString (s : string)
| VFunction (f : fn)
| VObject (l : loc)
| VComputedValue (c : ComputedValue)
| VModifierDescriptor (enhancer : IEnhancer) (initialValue : value).

#[global] Instance ComputedValue_eq_dec : EqDecision ComputedValue.
Proof. solve_decision. Defined.

#[global] Instance value_eq_dec : EqDecision value.
Proof. solve_decision. Defined.

(** [ObservableValue] of [types/observablevalue]: the stored value, the
    enhancer and the name given to the constructor. *)
Record ObservableValue := mkObservableValue {
  ov_value : value;
  ov_enhancer : IEnhancer;
  ov_name : string
}.

(** An entry of [adm.values]: [ObservableValue<any>|ComputedValue<any>]. *)
Inductive Cell :=
| CellObservable (o : ObservableValue)
| CellComputed (c : ComputedValue).

Inductive CellKind := ValueCell | ComputedCell.

Definition cell_kind (c : Cell) : CellKind :=
  match c with
  | CellObservable _ => ValueCell
  | CellComputed _ => ComputedCell
  end.

(** ** Changes *)

Inductive ChangeType := update | add.

(** [IObjectWillChange] *)
Record IObjectWillChange := mkWillChange {
  wc_object : loc;
  wc_type : ChangeType;
  wc_name : string;
  wc_newValue : value
}.

(** [IObjectChange]; [oldValue] is present in updates only. *)
Record IObjectChange := mkChange {
  ch_type : ChangeType;
  ch_object : loc;
  ch_oldValue : option value;
  ch_name : string;
  ch_newValue : value
}.

(** An interception handler: it returns the change to go on with, or
    nothing to cancel. *)
Record Interceptor := mkInterceptor {
  icpt_id : nat;
  icpt_run : IObjectWillChange -> option IObjectWillChange
}.

Definition Listener := nat.

(** ** The administration record *)

(** [class ObservableObjectAdministration] *)
Record ObservableObjectAdministration := mkAdm {
  adm_values : gmap string Cell;
  adm_changeListeners : option (list Listener);
  adm_interceptors : option (list Interceptor);
  adm_target : loc;
  adm_name : string
}.

(** [new ObservableObjectAdministration(target, name)] *)
Definition new_ObservableObjectAdministration (target : loc) (name : string)
  : ObservableObjectAdministration :=
  {| adm_values := ∅; adm_changeListeners := None; adm_interceptors := None;
     adm_target := target; adm_name := name |}.

(** ** Objects *)

(** The functions of the generated accessor configurations, closed over
    the property name. *)
Inductive Getter :=
| GetCell (propName : string).
    (* function() { return this.$mobx.values[propName].get() } *)

Inductive Setter :=
| SetThroughRouter (propName : string)
    (* function(v) { setPropertyValue(this, propName, v) } *)
| SetCellDirectly (propName : string).
    (* function(v) { return this.$mobx.values[propName].set(v) } *)

Record PropertyConfig := mkConfig {
  configurable : bool;
  enumerable : bool;
  get : Getter;
  set : Setter
}.

#[global] Instance Getter_eq_dec : EqDecision Getter.
Proof. solve_decision. Defined.

#[global] Instance Setter_eq_dec : EqDecision Setter.
Proof. solve_decision. Defined.

#[global] Instance PropertyConfig_eq_dec : EqDecision PropertyConfig.
Proof. solve_decision. Defined.

(** ** Plain objects as tables *)

(** The names of the members of [Object.prototype] in the host: the
    functions of the standard library, and the accessor [__proto__]. *)
Definition Object_prototype_members : list string :=
  ["constructor"; "toString"; "toLocaleString"; "valueOf"; "hasOwnProperty";
   "isPrototypeOf"; "propertyIsEnumerable"; "__defineGetter__"; "__defineSetter__";
   "__lookupGetter__"; "__lookupSetter__"; "__proto__"].

(** Whether a plain object inherits a member under the name. *)
Definition inherited (name : string) : bool :=
  bool_decide (name ∈ Object_prototype_members).

(** What [table[name]] finds in a plain object used as a table: the entry
    of the table, or the member of [Object.prototype] of that name.  A
    member is a function, or for [__proto__] the prototype itself: it is
    truthy, it has none of the methods of a cell, and none of the fields
    of a property descriptor, neither of its own nor inherited. *)
Inductive Found (A : Type) :=
| Entry (a : A)
| Member (name : string).
Arguments Entry {A} a.
Arguments Member {A} name.

(** [table[name]]; [None] is [undefined]. *)
Definition table_get {A} (table : gmap string A) (name : string) : option (Found A) :=
  match table !! name with
  | Some a => Some (Entry a)
  | None => if inherited name then Some (Member name) else None
  end.

(** An own property of an object. *)
Inductive Property :=
| DataProperty (v : value) (writable enumerable configurable : bool)
| AccessorProperty (config : PropertyConfig).

(** The descriptor handed to [defineObservablePropertyFromDescriptor]:
    it has a [value] field, or it is a getter/setter pair. *)
Inductive PropertyDescriptor :=
| ValueDescriptor (v : value)
| AccessorDescriptor (getter setter : option fn).

Inductive Prototype :=
| ObjectPrototype
| NullPrototype
| ClassPrototype (constructorName : string).

(** What the hidden [$mobx] field of an object holds. *)
Inductive Slot :=
| SlotAdministration (adm : ObservableObjectAdministration)
| SlotOther (v : value).

Record JSObject := mkObject {
  properties : gmap string Property;
  extensible : bool;
  prototype : Prototype;
  mobx : option Slot
}.

Definition empty_object : JSObject :=
  {| properties := ∅; extensible := true; prototype := ObjectPrototype;
     mobx := None |}.

(** ** Events and the world *)

(** What the world can observe of a call: an interception handler was
    called with a pending change, the trace was given a start or an end
    report, a value cell took a new value, a listener was called, the
    own setter of a computed cell was called.  Trace and listeners get
    the [change] variable of the source as it is, an object or [null]. *)
Inductive event :=
| EvIntercept (handler : nat) (change : IObjectWillChange)
| EvSpyStart (change : option IObjectChange)
| EvSpyEnd
| EvCommit (cell : string) (newValue : value)
| EvNotify (listener : Listener) (change : option IObjectChange)
| EvComputedSet (cell : string) (v : value).

Record World := mkWorld {
  objs : gmap loc JSObject;
  mobxGuid : N;
  spyEnabled : bool;
  observablePropertyConfigs : gmap string PropertyConfig;
  computedPropertyConfigs : gmap string PropertyConfig;
  log : list event
}.

Definition set_objs (f : gmap loc JSObject -> gmap loc JSObject) (w : World) : World :=
  {| objs := f (objs w); mobxGuid := mobxGuid w; spyEnabled := spyEnabled w;
     observablePropertyConfigs := observablePropertyConfigs w;
     computedPropertyConfigs := computedPropertyConfigs w; log := log w |}.

Definition set_mobxGuid (n : N) (w : World) : World :=
  {| objs := objs w; mobxGuid := n; spyEnabled := spyEnabled w;
     observablePropertyConfigs := observablePropertyConfigs w;
     computedPropertyConfigs := computedPropertyConfigs w; log := log w |}.

Definition set_observablePropertyConfigs (t : gmap string PropertyConfig) (w : World) : World :=
  {| objs := objs w; mobxGuid := mobxGuid w; spyEnabled := spyEnabled w;
     observablePropertyConfigs := t;
     computedPropertyConfigs := computedPropertyConfigs w; log := log w |}.

Definition set_computedPropertyConfigs (t : gmap string PropertyConfig) (w : World) : World :=
  {| objs := objs w; mobxGuid := mobxGuid w; spyEnabled := spyEnabled w;
     observablePropertyConfigs := observablePropertyConfigs w;
     computedPropertyConfigs := t; log := log w |}.

Definition add_events (es : list event) (w : World) : World :=
  {| objs := objs w; mobxGuid := mobxGuid w; spyEnabled := spyEnabled w;
     observablePropertyConfigs := observablePropertyConfigs w;
     computedPropertyConfigs := computedPropertyConfigs w; log := (log w ++ es)%list |}.

(** The object at a location. *)
Definition object_at (w : World) (l : loc) : JSObject :=
  default empty_object (objs w !! l).

Definition set_object (l : loc) (o : JSObject) (w : World) : World :=
  set_objs (fun h => <[l := o]> h) w.

(** ** Errors and the monad of the module *)

(** The failures of the specification's taxonomy that the source raises
    through [invariant], and the [TypeError] of the host language when a
    member of [undefined] is read or something that is no function is
    called. *)
Inductive error :=
| NotExtensible
| PropertyNotConfigurable
| RedefinitionConflict
| InvariantViolation
| TypeError.

Inductive result (A : Type) :=
| Ok (a : A)
| Err (e : error).
Arguments Ok {A} a.
Arguments Err {A} e.

(** A computation reads and writes the world and returns or throws; what
    was written before a throw stays written. *)
Definition M (A : Type) : Type := World -> result A * World.

Definition ret {A} (a : A) : M A := fun w => (Ok a, w).

Definition throw {A} (e : error) : M A := fun w => (Err e, w).

Definition bind {A B} (m : M A) (k : A -> M B) : M B :=
  fun w => match m w with
           | (Ok a, w') => k a w'
           | (Err e, w') => (Err e, w')
           end.

Definition gets {A} (f : World -> A) : M A := fun w => (Ok (f w), w).

Definition modify (f : World -> World) : M unit := fun w => (Ok tt, f w).

Notation "'let!' x ':=' m 'in' k" := (bind m (fun x => k))
  (at level 10, x name, m at level 100, k at level 200).
Notation "m ';;' k" := (bind m (fun _ => k))
  (at level 100, k at level 200, right associativity).

Definition when (b : bool) (m : M unit) : M unit := if b then m else ret tt.

Definition invariant (check : bool) (e : error) : M unit :=
  if check then ret tt else throw e.

Definition log_event (e : event) : M unit := modify (add_events [e]).

(** ** Collaborators *)

(** How a call of [prepareNewValue] ends: it returns the [UNCHANGED]
    sentinel or the value to commit, or it throws. *)
Inductive Prepared :=
| UNCHANGED
| NewValue (v : value)
| Thrown (e : error).

(** The cells' own policy, which this module only calls: the value the
    constructor of a value cell stores for an initial value (the
    enhancer may wrap it); [prepareNewValue], which applies the coercion
    and the equality test of a value cell to a candidate and may refuse
    it; and the answer of the own [set] of a computed cell, which returns
    or throws as its setter decides.  A policy is known by its answers:
    what a cell does to the world while it answers is the cell's affair
    and not modelled. *)
Class CellPolicy := {
  initialValue : value -> IEnhancer -> string -> value;
  prepareNewValue : ObservableValue -> value -> Prepared;
  computedSet : ComputedValue -> value -> result unit
}.

(** [runLazyInitializers] of [utils/decorators], which runs the deferred
    field initializers of an instance. *)
Class LazyInitializers := {
  runLazyInitializers : value -> M unit
}.

(** Modelled from the spec: [getNextId] of [utils/utils], the unique id
    generator; it counts up. *)
Definition getNextId : M N :=
  let! n := gets mobxGuid in
  modify (set_mobxGuid (n + 1));;
  ret (n + 1)%N.

(** Modelled from the spec: [isSpyEnabled] of [core/spy], whether
    tracing is enabled. *)
Definition isSpyEnabled : M bool := gets spyEnabled.

(** Modelled from the spec: [spyReportStart] of [core/spy], the start
    report of the trace. *)
Definition spyReportStart (change : option IObjectChange) : M unit :=
  log_event (EvSpyStart change).

(** Modelled from the spec: [spyReportEnd] of [core/spy], the end report
    of the trace. *)
Definition spyReportEnd : M unit := log_event EvSpyEnd.

(** Modelled from the spec: [hasInterceptors] of
    [types/intercept-utils], whether a handler is registered. *)
Definition hasInterceptors (adm : ObservableObjectAdministration) : bool :=
  match adm_interceptors adm with
  | Some (_ :: _) => true
  | _ => false
  end.

(** Modelled from the spec: the chain of [interceptChange].  The
    handlers run in registration order, each on what the one before
    returned; the first that cancels ends the chain. *)
Fixpoint run_interceptors (handlers : list Interceptor) (change : IObjectWillChange)
  : M (option IObjectWillChange) :=
  match handlers with
  | [] => ret (Some change)
  | h :: rest =>
      log_event (EvIntercept (icpt_id h) change);;
      match icpt_run h change with
      | None => ret None
      | Some change' => run_interceptors rest change'
      end
  end.

(** Modelled from the spec: [interceptChange] of
    [types/intercept-utils], the chain on the handlers of the record. *)
Definition interceptChange (adm : ObservableObjectAdministration)
    (change : IObjectWillChange) : M (option IObjectWillChange) :=
  run_interceptors (default [] (adm_interceptors adm)) change.

(** Modelled from the spec: [registerInterceptor], which appends the
    handler to the chain. *)
Definition registerInterceptor (handler : Interceptor)
    (adm : ObservableObjectAdministration) : ObservableObjectAdministration :=
  {| adm_values := adm_values adm; adm_changeListeners := adm_changeListeners adm;
     adm_interceptors := Some (default [] (adm_interceptors adm) ++ [handler])%list;
     adm_target := adm_target adm; adm_name := adm_name adm |}.

(** Modelled from the spec: [hasListeners] of [types/listen-utils],
    whether a listener is registered. *)
Definition hasListeners (adm : ObservableObjectAdministration) : bool :=
  match adm_changeListeners adm with
  | Some (_ :: _) => true
  | _ => false
  end.

(** Modelled from the spec: [notifyListeners] of [types/listen-utils];
    every listener is called with the change. *)
Definition notifyListeners (adm : ObservableObjectAdministration)
    (change : option IObjectChange) : M unit :=
  modify (add_events (map (fun l => EvNotify l change)
                          (default [] (adm_changeListeners adm)))).

(** Modelled from the spec: [registerListener] of [types/listen-utils],
    which adds the callback to the listeners. *)
Definition registerListener (callback : Listener)
    (adm : ObservableObjectAdministration) : ObservableObjectAdministration :=
  {| adm_values := adm_values adm;
     adm_changeListeners := Some (default [] (adm_changeListeners adm) ++ [callback])%list;
     adm_interceptors := adm_interceptors adm;
     adm_target := adm_target adm; adm_name := adm_name adm |}.

(** Modelled from the spec: [isObject] of [utils/utils], the object-kind
    test: objects, and neither [null] nor functions. *)
Definition isObject (thing : value) : bool :=
  match thing with
  | VObject _ | VComputedValue _ | VModifierDescriptor _ _ => true
  | _ => false
  end.

(** Modelled from the spec: [isPlainObject] of [utils/utils], the test
    for a plain structural record. *)
Definition isPlainObject (o : JSObject) : bool :=
  match prototype o with
  | ObjectPrototype | NullPrototype => true
  | ClassPrototype _ => false
  end.

(** [target.constructor.name] *)
Definition constructor_name (o : JSObject) : string :=
  match prototype o with
  | ClassPrototype n => n
  | _ => "Object"
  end.

(** Modelled from the spec: the instance test that
    [createInstanceofPredicate] builds for the administration class. *)
Definition isObservableObjectAdministration (slot : option Slot) : bool :=
  match slot with
  | Some (SlotAdministration _) => true
  | _ => false
  end.

(** ** Reading and writing the heap *)

(** [thing.$mobx] *)
Definition read_mobx (thing : value) : M (option Slot) :=
  match thing with
  | VObject l => gets (fun w => mobx (object_at w l))
  | _ => ret None
  end.

(** The administration an object carries.  An administration is known
    by the object that carries it; reading a field of what is no
    administration is a [TypeError]. *)
Definition read_adm (carrier : loc) : M ObservableObjectAdministration :=
  let! slot := read_mobx (VObject carrier) in
  match slot with
  | Some (SlotAdministration adm) => ret adm
  | _ => throw TypeError
  end.

Definition with_mobx (slot : option Slot) (o : JSObject) : JSObject :=
  {| properties := properties o; extensible := extensible o;
     prototype := prototype o; mobx := slot |}.

Definition with_properties (ps : gmap string Property) (o : JSObject) : JSObject :=
  {| properties := ps; extensible := extensible o;
     prototype := prototype o; mobx := mobx o |}.

Definition with_values (vs : gmap string Cell)
    (adm : ObservableObjectAdministration) : ObservableObjectAdministration :=
  {| adm_values := vs; adm_changeListeners := adm_changeListeners adm;
     adm_interceptors := adm_interceptors adm;
     adm_target := adm_target adm; adm_name := adm_name adm |}.

(** In-place update of the administration an object carries. *)
Definition update_adm (carrier : loc)
    (f : ObservableObjectAdministration -> ObservableObjectAdministration) : M unit :=
  modify (fun w =>
    let o := object_at w carrier in
    match mobx o with
    | Some (SlotAdministration adm) =>
        set_object carrier (with_mobx (Some (SlotAdministration (f adm))) o) w
    | _ => w
    end).

(** [adm.values[propName] = cell] *)
Definition bind_cell (carrier : loc) (propName : string) (cell : Cell) : M unit :=
  update_adm carrier (fun adm => with_values (<[propName := cell]> (adm_values adm)) adm).

(** Modelled from the spec: [addHiddenFinalProp(target, "$mobx", adm)]
    of [utils/utils]. *)
Definition addHiddenFinalProp_mobx (target : loc)
    (adm : ObservableObjectAdministration) : M unit :=
  modify (fun w =>
    set_object target (with_mobx (Some (SlotAdministration adm)) (object_at w target)) w).

(** The [configurable] attribute of a property. *)
Definition property_configurable (p : Property) : bool :=
  match p with
  | DataProperty _ _ _ c => c
  | AccessorProperty config => configurable config
  end.

(** Modelled from the spec: the test of [assertPropertyConfigurable];
    a property that is absent can be configured. *)
Definition isPropertyConfigurable (o : JSObject) (prop : string) : bool :=
  match properties o !! prop with
  | None => true
  | Some p => property_configurable p
  end.

(** Modelled from the spec: [assertPropertyConfigurable] of
    [utils/utils]. *)
Definition assertPropertyConfigurable (object : loc) (prop : string) : M unit :=
  let! o := gets (fun w => object_at w object) in
  invariant (isPropertyConfigurable o prop) PropertyNotConfigurable.

(** [Object.defineProperty(object, prop, attributes)] of the host, for
    what the generators return.  With a generated configuration it adds
    the accessor to an extensible object, or replaces a configurable
    property.  A member of [Object.prototype] is read as a descriptor
    with no field: the host leaves a property that exists as it is, and
    adds an absent one to an extensible object with the defaults, a data
    property that holds [undefined] and is neither writable nor
    enumerable nor configurable. *)
Definition Object_defineProperty (object : loc) (prop : string)
    (attributes : Found PropertyConfig) : M unit :=
  let! o := gets (fun w => object_at w object) in
  match attributes with
  | Entry config =>
      let allowed := match properties o !! prop with
                     | None => extensible o
                     | Some p => property_configurable p
                     end in
      if allowed
      then modify (fun w =>
             let o := object_at w object in
             set_object object
               (with_properties (<[prop := AccessorProperty config]> (properties o)) o) w)
      else throw TypeError
  | Member _ =>
      match properties o !! prop with
      | Some _ => ret tt
      | None =>
          if extensible o
          then modify (fun w =>
                 let o := object_at w object in
                 set_object object
                   (with_properties
                      (<[prop := DataProperty VUndefined false false false]>
                         (properties o)) o) w)
          else throw TypeError
      end
  end.

(** ** The module *)

Section ObservableObject.

Context {policy : CellPolicy} {initializers : LazyInitializers}.

(** Modelled from the spec: the constructor of [ObservableValue], which
    seeds the cell with the initial value as the enhancer leaves it. *)
Definition new_ObservableValue (v : value) (enhancer : IEnhancer) (name : string)
  : ObservableValue :=
  {| ov_value := initialValue v enhancer name; ov_enhancer := enhancer;
     ov_name := name |}.

(** Modelled from the spec: [setNewValue] of [ObservableValue], the
    commit.  It stores the value in the cell, which the administration of
    [owner] holds under [propName], and the world sees the cell change. *)
Definition setNewValue (owner : loc) (propName : string) (observable : ObservableValue)
    (newValue : value) : M unit :=
  bind_cell owner propName
    (CellObservable {| ov_value := newValue; ov_enhancer := ov_enhancer observable;
                       ov_name := ov_name observable |});;
  log_event (EvCommit (ov_name observable) newValue).

(** Modelled from the spec: [set] of [ObservableValue], which the
    setter of a computed accessor reaches when the name holds a value
    cell: the cell prepares and commits on its own, without the
    pipelines of the administration. *)
Definition ObservableValue_set (owner : loc) (propName : string)
    (observable : ObservableValue) (v : value) : M unit :=
  match prepareNewValue observable v with
  | UNCHANGED => ret tt
  | NewValue v' => setNewValue owner propName observable v'
  | Thrown e => throw e
  end.

(** Modelled from the spec: [set] of [ComputedValue].  The world sees
    the call; what the setter of the cell does with the value is the
    cell's affair and known by its answer only. *)
Definition ComputedValue_set (c : ComputedValue) (v : value) : M unit :=
  log_event (EvComputedSet (cv_name c) v);;
  fun w => (computedSet c v, w).

(** [observe] of the administration; the handle it returns is not
    modelled. *)
Definition observe (adm : loc) (callback : Listener) (fireImmediately : option bool)
  : M unit :=
  invariant (negb (bool_decide (fireImmediately = Some true))) InvariantViolation;;
  update_adm adm (registerListener callback).

(** [intercept] of the administration; the handle it returns is not
    modelled. *)
Definition intercept (adm : loc) (handler : Interceptor) : M unit :=
  update_adm adm (registerInterceptor handler).

(** [isObservableObject] *)
Definition isObservableObject (thing : value) : M bool :=
  if isObject thing then
    runLazyInitializers thing;;
    let! slot := read_mobx thing in
    ret (isObservableObjectAdministration slot)
  else ret false.

(** [!name] for an optional string: absent or empty. *)
Definition no_name (name : option string) : bool :=
  match name with
  | None | Some "" => true
  | Some _ => false
  end.

(** [target.constructor.name || "ObservableObject"] *)
Definition constructor_name_or_default (o : JSObject) : string :=
  match constructor_name o with
  | "" => "ObservableObject"
  | n => n
  end.

(** [asObservableObject]; it returns the administration, which is known
    by the target that carries it. *)
Definition asObservableObject (target : loc) (name : option string) : M loc :=
  let! observable := isObservableObject (VObject target) in
  if observable then ret target
  else
    let! o := gets (fun w => object_at w target) in
    invariant (extensible o) NotExtensible;;
    let! name :=
      if negb (isPlainObject o)
      then let! id := getNextId in
           ret (Some (constructor_name_or_default o +:+ "@" +:+ pretty id))
      else ret name in
    let! name :=
      if no_name name
      then let! id := getNextId in ret ("ObservableObject@" +:+ pretty id)
      else ret (default "" name) in
    let adm := new_ObservableObjectAdministration target name in
    addHiddenFinalProp_mobx target adm;;
    ret target.

(** [generateObservablePropConfig].  What the table gives is returned
    when it is truthy, be it a configuration stored before or a member
    the table inherits; a configuration is built and stored otherwise. *)
Definition generateObservablePropConfig (propName : string)
  : M (Found PropertyConfig) :=
  let! config := gets (fun w => table_get (observablePropertyConfigs w) propName) in
  match config with
  | Some config => ret config
  | None =>
      let config := {| configurable := true; enumerable := true;
                       get := GetCell propName; set := SetThroughRouter propName |} in
      modify (fun w => set_observablePropertyConfigs
                         (<[propName := config]> (observablePropertyConfigs w)) w);;
      ret (Entry config)
  end.

(** [generateComputedPropConfig] *)
Definition generateComputedPropConfig (propName : string)
  : M (Found PropertyConfig) :=
  let! config := gets (fun w => table_get (computedPropertyConfigs w) propName) in
  match config with
  | Some config => ret config
  | None =>
      let config := {| configurable := true; enumerable := false;
                       get := GetCell propName; set := SetCellDirectly propName |} in
      modify (fun w => set_computedPropertyConfigs
                         (<[propName := config]> (computedPropertyConfigs w)) w);;
      ret (Entry config)
  end.

(** [observable.prepareNewValue(newValue)] on what [adm.values[name]]
    gave: there is no such method on [undefined], on a member the table
    inherits or on a computed cell, and only an entry can be a value
    cell.  How the call on a value cell ends is looked at by the
    caller. *)
Definition call_prepareNewValue (observable : option Cell) (newValue : value)
  : M (ObservableValue * Prepared) :=
  match observable with
  | Some (CellObservable o) => ret (o, prepareNewValue o newValue)
  | _ => throw TypeError
  end.

(** The block [if (hasInterceptors(adm)) { ... }] that the router and
    the installer of value cells share: the chain runs on the pending
    change when there is one; [None] stands for the [return] taken when
    it cancels, otherwise the block leaves [newValue], rewritten or not. *)
Definition intercept_phase (adm : ObservableObjectAdministration)
    (change : IObjectWillChange) : M (option value) :=
  if hasInterceptors adm then
    let! change := interceptChange adm change in
    ret (wc_newValue <$> change)
  else ret (Some (wc_newValue change)).

(** [setPropertyValue] *)
Definition setPropertyValue (instance : loc) (name : string) (newValue : value)
  : M unit :=
  let! adm := read_adm instance in
  let observable := adm_values adm !! name in
  let! intercepted := intercept_phase adm
    {| wc_type := update; wc_object := instance; wc_name := name;
       wc_newValue := newValue |} in
  match intercepted with
  | None => ret tt
  | Some newValue =>
      let! prepared := call_prepareNewValue observable newValue in
      match prepared with
      | (_, Thrown e) => throw e
      | (_, UNCHANGED) => ret tt
      | (observable, NewValue newValue) =>
          let notify := hasListeners adm in
          let! notifySpy := isSpyEnabled in
          let change :=
            if notify || notifySpy
            then Some {| ch_type := update; ch_object := instance;
                         ch_oldValue := Some (ov_value observable);
                         ch_name := name; ch_newValue := newValue |}
            else None in
          when notifySpy (spyReportStart change);;
          setNewValue instance name observable newValue;;
          when notify (notifyListeners adm change);;
          when notifySpy spyReportEnd
      end
  end.

(** [notifyPropertyAddition] *)
Definition notifyPropertyAddition (adm : ObservableObjectAdministration)
    (object : loc) (name : string) (newValue : value) : M unit :=
  let notify := hasListeners adm in
  let! notifySpy := isSpyEnabled in
  let change :=
    if notify || notifySpy
    then Some {| ch_type := add; ch_object := object; ch_oldValue := None;
                 ch_name := name; ch_newValue := newValue |}
    else None in
  when notifySpy (spyReportStart change);;
  when notify (notifyListeners adm change);;
  when notifySpy spyReportEnd.

(** [defineObservableProperty] *)
Definition defineObservableProperty (adm : loc) (propName : string) (newValue : value)
    (enhancer : IEnhancer) (asInstanceProperty : bool) : M unit :=
  let! a := read_adm adm in
  when asInstanceProperty (assertPropertyConfigurable (adm_target a) propName);;
  let! intercepted := intercept_phase a
    {| wc_object := adm_target a; wc_name := propName; wc_type := add;
       wc_newValue := newValue |} in
  match intercepted with
  | None => ret tt
  | Some newValue =>
      let observable :=
        new_ObservableValue newValue enhancer (adm_name a +:+ "." +:+ propName) in
      bind_cell adm propName (CellObservable observable);;
      let newValue := ov_value observable in
      when asInstanceProperty
        (let! config := generateObservablePropConfig propName in
         Object_defineProperty (adm_target a) propName config);;
      notifyPropertyAddition a (adm_target a) propName newValue
  end.

(** [defineComputedProperty] *)
Definition defineComputedProperty (adm : loc) (propName : string)
    (getter setter : option fn) (compareStructural asInstanceProperty : bool) : M unit :=
  let! a := read_adm adm in
  when asInstanceProperty (assertPropertyConfigurable (adm_target a) propName);;
  bind_cell adm propName
    (CellComputed {| cv_getter := getter; cv_scope := Some (adm_target a);
                     cv_compareStructural := compareStructural;
                     cv_name := adm_name a +:+ "." +:+ propName;
                     cv_setter := setter |});;
  when asInstanceProperty
    (let! config := generateComputedPropConfig propName in
     Object_defineProperty (adm_target a) propName config).

(** [defineComputedPropertyFromComputedValue] *)
Definition defineComputedPropertyFromComputedValue (adm : loc) (propName : string)
    (computedValue : ComputedValue) (asInstanceProperty : bool) : M unit :=
  let! a := read_adm adm in
  let name := adm_name a +:+ "." +:+ propName in
  let computedValue :=
    {| cv_getter := cv_getter computedValue;
       cv_scope := match cv_scope computedValue with
                   | None => Some (adm_target a)
                   | Some scope => Some scope
                   end;
       cv_compareStructural := cv_compareStructural computedValue;
       cv_name := name; cv_setter := cv_setter computedValue |} in
  bind_cell adm propName (CellComputed computedValue);;
  when asInstanceProperty
    (let! config := generateComputedPropConfig propName in
     Object_defineProperty (adm_target a) propName config).

(** A call of the setter of an accessor with [this] and the value.  The
    method [set] is called on what [this.$mobx.values[propName]] gives:
    on [undefined] and on a member the table inherits that is a
    [TypeError]. *)
Definition call_setter (setter : Setter) (this : loc) (v : value) : M unit :=
  match setter with
  | SetThroughRouter propName => setPropertyValue this propName v
  | SetCellDirectly propName =>
      let! adm := read_adm this in
      match adm_values adm !! propName with
      | Some (CellComputed c) => ComputedValue_set c v
      | Some (CellObservable o) => ObservableValue_set this propName o v
      | None => throw TypeError
      end
  end.

(** [object[prop] = v] of the host, in strict mode: the setter of an
    accessor is called, a writable data property takes the value, an
    absent property is added to an extensible object. *)
Definition assign_property (object : loc) (prop : string) (v : value) : M unit :=
  let! o := gets (fun w => object_at w object) in
  match properties o !! prop with
  | Some (AccessorProperty config) => call_setter (set config) object v
  | Some (DataProperty _ writable e c) =>
      if writable
      then modify (set_object object
             (with_properties (<[prop := DataProperty v true e c]> (properties o)) o))
      else throw TypeError
  | None =>
      if extensible o
      then modify (set_object object
             (with_properties (<[prop := DataProperty v true true true]> (properties o)) o))
      else throw TypeError
  end.

(** ["value" in descriptor] *)
Definition has_value (descriptor : PropertyDescriptor) : bool :=
  match descriptor with
  | ValueDescriptor _ => true
  | AccessorDescriptor _ _ => false
  end.

(** [descriptor.value] *)
Definition descriptor_value (descriptor : PropertyDescriptor) : value :=
  match descriptor with
  | ValueDescriptor v => v
  | AccessorDescriptor _ _ => VUndefined
  end.

(** [defineObservablePropertyFromDescriptor]; the tests
    [isModifierDescriptor] and [isComputedValue] are the cases of the
    value.  The first test is the truthiness of [adm.values[propName]],
    which a cell and a member the table inherits both pass. *)
Definition defineObservablePropertyFromDescriptor (adm : loc) (propName : string)
    (descriptor : PropertyDescriptor) (defaultEnhancer : IEnhancer) : M unit :=
  let! a := read_adm adm in
  match table_get (adm_values a) propName with
  | Some _ =>
      invariant (has_value descriptor) RedefinitionConflict;;
      assign_property (adm_target a) propName (descriptor_value descriptor)
  | None =>
      match descriptor with
      | ValueDescriptor v =>
          match v with
          | VModifierDescriptor enhancer initial =>
              defineObservableProperty adm propName initial enhancer true
          | VComputedValue c =>
              defineComputedPropertyFromComputedValue adm propName c true
          | _ => defineObservableProperty adm propName v defaultEnhancer true
          end
      | AccessorDescriptor getter setter =>
          defineComputedProperty adm propName getter setter false true
      end
  end.

End ObservableObject.

(** ** Reading a property *)

(** What the own [get] of a computed cell answers in a world; the
    evaluation of its getter belongs to the cell. *)
Class ComputedEvaluation := {
  computedGet : ComputedValue -> World -> result value
}.

Section Reads.

Context {evaluation : ComputedEvaluation}.

(** Modelled from the spec: [get] of [ObservableValue], which returns the
    stored value. *)
Definition ObservableValue_get (observable : ObservableValue) : M value :=
  ret (ov_value observable).

(** Modelled from the spec: [get] of [ComputedValue]. *)
Definition ComputedValue_get (c : ComputedValue) : M value :=
  fun w => (computedGet c w, w).

(** A call of the getter of a generated accessor with [this]:
    [this.$mobx.values[propName].get()], a [TypeError] when the table
    gives no cell. *)
Definition call_getter (getter : Getter) (this : loc) : M value :=
  match getter with
  | GetCell propName =>
      let! adm := read_adm this in
      match adm_values adm !! propName with
      | Some (CellObservable o) => ObservableValue_get o
      | Some (CellComputed c) => ComputedValue_get c
      | None => throw TypeError
      end
  end.

(** [object[prop]] of the host, on own properties: the value of a data
    property, what the getter of an accessor returns, [undefined] for an
    absent property. *)
Definition get_property (object : loc) (prop : string) : M value :=
  let! o := gets (fun w => object_at w object) in
  match properties o !! prop with
  | Some (AccessorProperty config) => call_getter (get config) object
  | Some (DataProperty v _ _ _) => ret v
  | None => ret VUndefined
  end.

End Reads.

(** ** Concrete collaborators and worlds, for the examples *)

(** A cell that stores references: the value is kept as given, and a
    write is a no-op when the candidate is the stored value. *)
Definition reference_policy : CellPolicy :=
  {| initialValue := fun v _ _ => v;
     prepareNewValue := fun o v =>
       if decide (v = ov_value o) then UNCHANGED else NewValue v;
     computedSet := fun c _ =>
       match cv_setter c with
       | Some _ => Ok tt
       | None => Err InvariantViolation
       end |}.

(** A cell that stores references and refuses a modifier descriptor as
    a new value. *)
Definition strict_policy : CellPolicy :=
  {| initialValue := fun v _ _ => v;
     prepareNewValue := fun o v =>
       match v with
       | VModifierDescriptor _ _ => Thrown InvariantViolation
       | _ => if decide (v = ov_value o) then UNCHANGED else NewValue v
       end;
     computedSet := fun c _ =>
       match cv_setter c with
       | Some _ => Ok tt
       | None => Err InvariantViolation
       end |}.

Definition no_lazy_initializers : LazyInitializers :=
  {| runLazyInitializers := fun _ => ret tt |}.

(** Initializers that make an instance observable under the name
    ["Lazy"], as a decorated class does on first use. *)
Definition reactivating_initializers : LazyInitializers :=
  {| runLazyInitializers := fun thing =>
       match thing with
       | VObject l =>
           addHiddenFinalProp_mobx l (new_ObservableObjectAdministration l "Lazy")
       | _ => ret tt
       end |}.

Definition initial_world : World :=
  {| objs := ∅; mobxGuid := 0; spyEnabled := false;
     observablePropertyConfigs := ∅; computedPropertyConfigs := ∅; log := [] |}.

Definition enable_spy (w : World) : World :=
  {| objs := objs w; mobxGuid := mobxGuid w; spyEnabled := true;
     observablePropertyConfigs := observablePropertyConfigs w;
     computedPropertyConfigs := computedPropertyConfigs w; log := log w |}.

(** The world a computation leaves. *)
Definition exec {A} (m : M A) (w : World) : World := snd (m w).

(** * Vocabulary of the properties *)

(** ** What a world holds *)

(** The administration an object carries, when it carries one. *)
Definition administration_at (w : World) (l : loc) : option ObservableObjectAdministration :=
  match mobx (object_at w l) with
  | Some (SlotAdministration adm) => Some adm
  | _ => None
  end.

(** The cell an object's administration binds to a name. *)
Definition cell_at (w : World) (l : loc) (propName : string) : option Cell :=
  match mobx (object_at w l) with
  | Some (SlotAdministration adm) => adm_values adm !! propName
  | _ => None
  end.

(** The value stored in the value cell bound to a name. *)
Definition stored_value (w : World) (l : loc) (propName : string) : option value :=
  match cell_at w l propName with
  | Some (CellObservable o) => Some (ov_value o)
  | _ => None
  end.

Definition is_intercept (e : event) : Prop :=
  match e with
  | EvIntercept _ _ => True
  | _ => False
  end.


(** The change record the router builds for a commit. *)
Definition update_change (instance : loc) (name : string)
    (oldValue newValue : value) : IObjectChange :=
  {| ch_type := update; ch_object := instance; ch_oldValue := Some oldValue;
     ch_name := name; ch_newValue := newValue |}.

(** The events of a commit, in the order the world sees them: [change] is
    what trace and listeners are given. *)
Definition commit_events (spy : bool) (listeners : list Listener)
    (cell : string) (newValue : value) (change : option IObjectChange) : list event :=
  ((if spy then [EvSpyStart change] else [])
   ++ [EvCommit cell newValue]
   ++ map (fun l => EvNotify l change) listeners
   ++ (if spy then [EvSpyEnd] else []))%list.

(** The name the entry point gives to a fresh administration: [id] is
    the next unique id. *)
Definition derived_name (o : JSObject) (name : option string) (id : N) : string :=
  match prototype o with
  | ClassPrototype "" => "ObservableObject@" +:+ pretty id
  | ClassPrototype typeName => typeName +:+ "@" +:+ pretty id
  | _ =>
      match name with
      | None | Some "" => "ObservableObject@" +:+ pretty id
      | Some given => given
      end
  end.

(** The configurations the two generators build for a name. *)
Definition observable_config (propName : string) : PropertyConfig :=
  {| configurable := true; enumerable := true;
     get := GetCell propName; set := SetThroughRouter propName |}.

Definition computed_config (propName : string) : PropertyConfig :=
  {| configurable := true; enumerable := false;
     get := GetCell propName; set := SetCellDirectly propName |}.

(** Whether the lookup of a name in a table finds a member the table
    inherits, and no entry. *)
Definition finds_member {A} (table : gmap string A) (name : string) : bool :=
  match table_get table name with
  | Some (Member _) => true
  | _ => false
  end.

(** What a generator returns for a name, given its table and the
    configuration it builds. *)
Definition generated {A} (table : gmap string A) (propName : string)
    (config : PropertyConfig) : Found PropertyConfig :=
  if finds_member table propName then Member propName else Entry config.

(** The property [Object.defineProperty] leaves for a member read as a
    descriptor: the one that was there, or the defaults. *)
Definition left_by_member (before : option Property) : Property :=
  default (DataProperty VUndefined false false false) before.

(** What [Object.defineProperty] makes of a property, for what a
    generator returned. *)
Definition defined_property (attributes : Found PropertyConfig)
    (before : option Property) : Property :=
  match attributes with
  | Entry config => AccessorProperty config
  | Member _ => left_by_member before
  end.

(** The memo tables are private to the module and written by the
    generators only: what they hold for a name is what the generator
    builds for it. *)
Definition memo_wf (w : World) : Prop :=
  map_Forall (fun p c => c = observable_config p) (observablePropertyConfigs w)
  /\ map_Forall (fun p c => c = computed_config p) (computedPropertyConfigs w).

#[global] Instance memo_wf_dec w : Decision (memo_wf w).
Proof. unfold memo_wf. apply _. Defined.

(** A computation that leaves the memo tables well formed. *)
Definition keeps_memo {A} (m : M A) : Prop :=
  forall w, memo_wf w -> memo_wf (exec m w).

(** Two worlds with the same objects and the same log: they differ by
    the memo tables and the id counter at most. *)
Definition same_heap (w w' : World) : Prop :=
  objs w' = objs w /\ log w' = log w /\ spyEnabled w' = spyEnabled w.

(** What a computed cell is installed from: a getter/setter pair with a
    comparison mode, or a computed value built before. *)
Inductive ComputedSource :=
| FromGetterSetter (getter setter : option fn) (compareStructural : bool)
| FromComputedValue (computedValue : ComputedValue).

(** The two installers of computed cells, as one operation. *)
Definition installComputedCell (adm : loc) (propName : string)
    (source : ComputedSource) (asInstanceProperty : bool) : M unit :=
  match source with
  | FromGetterSetter getter setter compareStructural =>
      defineComputedProperty adm propName getter setter compareStructural
        asInstanceProperty
  | FromComputedValue computedValue =>
      defineComputedPropertyFromComputedValue adm propName computedValue
        asInstanceProperty
  end.

(** A value that is neither a modifier descriptor nor a computed value:
    what a fresh declaration installs as a value cell with the default
    enhancer. *)
Definition plain_value (v : value) : bool :=
  match v with
  | VModifierDescriptor _ _ | VComputedValue _ => false
  | _ => true
  end.

(** The change record of an addition, and the events of its
    notification in the order the world sees them. *)
Definition add_change (object : loc) (name : string) (newValue : value)
  : IObjectChange :=
  {| ch_type := add; ch_object := object; ch_oldValue := None;
     ch_name := name; ch_newValue := newValue |}.

Definition addition_events (spy : bool) (listeners : list Listener)
    (change : option IObjectChange) : list event :=
  ((if spy then [EvSpyStart change] else [])
   ++ map (fun l => EvNotify l change) listeners
   ++ (if spy then [EvSpyEnd] else []))%list.

(** The kind of cell a declaration binds to a free name, and the
    enhancer it gives to a value cell. *)
Definition descriptor_kind (descriptor : PropertyDescriptor) : CellKind :=
  match descriptor with
  | ValueDescriptor (VComputedValue _) => ComputedCell
  | ValueDescriptor _ => ValueCell
  | AccessorDescriptor _ _ => ComputedCell
  end.

Definition descriptor_enhancer (descriptor : PropertyDescriptor)
    (defaultEnhancer : IEnhancer) : IEnhancer :=
  match descriptor with
  | ValueDescriptor (VModifierDescriptor enhancer _) => enhancer
  | _ => defaultEnhancer
  end.

(** The cell of a value cell after the commit of a value. *)
Definition committed (o : ObservableValue) (v : value) : Cell :=
  CellObservable {| ov_value := v; ov_enhancer := ov_enhancer o; ov_name := ov_name o |}.

(** A computation that writes nothing to the log. *)
Definition keeps_log {A} (m : M A) : Prop :=
  forall w, log (exec m w) = log w.

(** Every name that is bound stays bound, to a cell of the kind it had. *)
Definition kinds_preserved (w w' : World) : Prop :=
  forall l p c,
    cell_at w l p = Some c ->
    exists c', cell_at w' l p = Some c' /\ cell_kind c' = cell_kind c.

(** A computation that preserves the kinds from every world, whether it
    returns or throws. *)
Definition keeps_kinds {A} (m : M A) : Prop :=
  forall w, kinds_preserved w (exec m w).

(** A sequence of installs from descriptors, each on a record of its
    own choice and from the world the one before left, whether that one
    returned or threw. *)
Definition install_all {policy : CellPolicy}
    (requests : list (loc * string * PropertyDescriptor * IEnhancer)) (w : World) : World :=
  fold_left
    (fun w '(adm, propName, descriptor, enhancer) =>
       exec (defineObservablePropertyFromDescriptor adm propName descriptor enhancer) w)
    requests w.

(** ** The worlds of the scenarios *)

(** The objects, functions and enhancer of the examples. *)
Definition point : loc := 1%positive.
Definition ticket : loc := 2%positive.
Definition sum_getter : fn := 1%positive.
Definition sum_setter : fn := 2%positive.
Definition deepEnhancer : IEnhancer := 0%N.

(** An interceptor that multiplies every number by ten, and one that
    cancels every change. *)
Definition times_ten : Interceptor :=
  {| icpt_id := 1;
     icpt_run := fun change =>
       Some {| wc_object := wc_object change; wc_type := wc_type change;
               wc_name := wc_name change;
               wc_newValue := match wc_newValue change with
                              | VNumber n => VNumber (10 * n)
                              | v => v
                              end |} |}.

Definition veto : Interceptor := {| icpt_id := 2; icpt_run := fun _ => None |}.

(** The object [point] made observable under the name ["Point"]. *)
Definition fresh_point_world : World :=
  exec (asObservableObject (initializers := no_lazy_initializers) point (Some "Point"))
       (enable_spy initial_world).

(** Scenario A: the field [x = 1] installed, listener 7 registered,
    tracing enabled. *)
Definition point_world : World :=
  exec (defineObservableProperty (policy := reference_policy)
          point "x" (VNumber 1) deepEnhancer true;;
        observe point 7 None)
       fresh_point_world.

(** Scenario C: the interceptor that multiplies by ten registered. *)
Definition scaled_world : World := exec (intercept point times_ten) point_world.

Definition vetoed_world : World := exec (intercept point veto) scaled_world.

(** Scenario B: a computed field [sum] declared by a getter and a setter. *)
Definition sum_world : World :=
  exec (defineObservablePropertyFromDescriptor (policy := reference_policy) point "sum"
          (AccessorDescriptor (Some sum_getter) (Some sum_setter)) deepEnhancer)
       vetoed_world.


(** [ticket] is an instance of a class [Ticket], not observable yet. *)
Definition ticket_world : World :=
  set_object ticket
    {| properties := ∅; extensible := true; prototype := ClassPrototype "Ticket";
       mobx := None |} initial_world.

Definition the_adm (w : World) (l : loc) : ObservableObjectAdministration :=
  default (new_ObservableObjectAdministration l "") (administration_at w l).


(** An object as it is but for whether it can be extended. *)
Definition with_extensible (b : bool) (o : JSObject) : JSObject :=
  {| properties := properties o; extensible := b; prototype := prototype o;
     mobx := mobx o |}.

(** Scenario C after the target was made non-extensible. *)
Definition sealed_world : World :=
  set_object point (with_extensible false (object_at scaled_world point)) scaled_world.

(** Scenario C with a data property [id] that cannot be configured. *)
Definition locked_world : World :=
  set_object point
    (with_properties
       (<["id" := DataProperty (VNumber 7) true true false]>
          (properties (object_at scaled_world point)))
       (object_at scaled_world point)) scaled_world.

(** A computed value built before it is installed. *)
Definition total_computed : ComputedValue :=
  {| cv_getter := Some sum_getter; cv_scope := None; cv_compareStructural := false;
     cv_name := "ComputedValue@3"; cv_setter := None |}.

(** A computed cell whose getter is not evaluated in the examples. *)
Definition no_evaluation : ComputedEvaluation :=
  {| computedGet := fun _ _ => Ok VUndefined |}.

(** The cell of [x] in the worlds of the scenarios, before a write. *)
Definition point_x : ObservableValue :=
  {| ov_value := VNumber 1; ov_enhancer := deepEnhancer; ov_name := "Point.x" |}.

Definition update_of (name : string) (v : value) : IObjectWillChange :=
  {| wc_type := update; wc_object := point; wc_name := name; wc_newValue := v |}.

Definition addition_of (name : string) (v : value) : IObjectWillChange :=
  {| wc_object := point; wc_name := name; wc_type := add; wc_newValue := v |}.

(** * Properties *)

Lemma bind_Ok {A B} (m : M A) (k : A -> M B) w a w' :
  m w = (Ok a, w') -> bind m k w = k a w'.
Proof. intros E. unfold bind. now rewrite E. Qed.

Lemma add_events_nil w : add_events [] w = w.
Proof. destruct w. unfold add_events. simpl. now rewrite app_nil_r. Qed.

Lemma add_events_app es1 es2 w :
  add_events es2 (add_events es1 w) = add_events (es1 ++ es2)%list w.
Proof. unfold add_events. simpl. now rewrite app_assoc. Qed.

Lemma object_at_add_events es w l : object_at (add_events es w) l = object_at w l.
Proof. reflexivity. Qed.

Lemma object_at_set_object_eq l o w : object_at (set_object l o w) l = o.
Proof. unfold object_at, set_object. simpl. now rewrite lookup_insert_eq. Qed.

Lemma object_at_set_object_ne l l' o w :
  l ≠ l' -> object_at (set_object l o w) l' = object_at w l'.
Proof. intros Hne. unfold object_at, set_object. simpl. now rewrite lookup_insert_ne. Qed.

Lemma read_adm_Ok carrier adm w :
  mobx (object_at w carrier) = Some (SlotAdministration adm) ->
  read_adm carrier w = (Ok adm, w).
Proof.
  intros E. unfold read_adm, read_mobx, bind, gets. now rewrite E.
Qed.

Lemma read_adm_inv carrier adm w w' :
  read_adm carrier w = (Ok adm, w') ->
  w' = w /\ mobx (object_at w carrier) = Some (SlotAdministration adm).
Proof.
  unfold read_adm, read_mobx, bind, gets, ret, throw.
  destruct (mobx (object_at w carrier)) as [[a|v]|]; intros E; inversion E; auto.
Qed.

(** ** The interception chain *)

(** The chain returns, writes nothing but the record of its calls, and
    leaves every object as it was. *)
Lemma run_interceptors_total handlers change w :
  exists r calls,
    run_interceptors handlers change w = (Ok r, add_events calls w)
    /\ Forall is_intercept calls.
Proof.
  revert change w. induction handlers as [|h rest IH]; intros change w.
  - exists (Some change), []. now rewrite add_events_nil.
  - simpl. unfold bind at 1. unfold log_event, modify.
    destruct (icpt_run h change) as [change'|].
    + destruct (IH change' (add_events [EvIntercept (icpt_id h) change] w))
        as (r & calls & E & Hc).
      exists r, (EvIntercept (icpt_id h) change :: calls). split.
      * rewrite E. now rewrite add_events_app.
      * constructor; [exact I | exact Hc].
    + exists None, [EvIntercept (icpt_id h) change]. split; [reflexivity|].
      constructor; [exact I | constructor].
Qed.

Lemma intercept_phase_total adm change w :
  exists r calls,
    intercept_phase adm change w = (Ok r, add_events calls w)
    /\ Forall is_intercept calls.
Proof.
  unfold intercept_phase. destruct (hasInterceptors adm).
  - destruct (run_interceptors_total (default [] (adm_interceptors adm)) change w)
      as (r & calls & E & Hc).
    exists (wc_newValue <$> r), calls. split; [|exact Hc].
    unfold interceptChange. now rewrite (bind_Ok _ _ _ _ _ E).
  - exists (Some (wc_newValue change)), []. split; [|constructor].
    now rewrite add_events_nil.
Qed.

Lemma intercept_phase_inv adm change w r w1 :
  intercept_phase adm change w = (r, w1) ->
  exists calls, w1 = add_events calls w /\ Forall is_intercept calls
                /\ exists v, r = Ok v.
Proof.
  intros E. destruct (intercept_phase_total adm change w) as (r' & calls & E' & Hc).
  rewrite E in E'. inversion E'; subst. eauto.
Qed.

Section RouterProperties.

Context {policy : CellPolicy}.

Lemma hasListeners_false_nil adm :
  hasListeners adm = false -> default [] (adm_changeListeners adm) = [].
Proof.
  unfold hasListeners. destruct (adm_changeListeners adm) as [[|l ls]|]; easy.
Qed.

(** The path of a write that the cell accepts: the router returns, the
    cell holds the prepared value, and the log grows by the events of the
    commit. *)
Lemma setPropertyValue_commits
    (instance : loc) (name : string) (newValue v' v'' : value)
    (adm : ObservableObjectAdministration) (o : ObservableValue) (w w1 : World) :
  mobx (object_at w instance) = Some (SlotAdministration adm) ->
  adm_values adm !! name = Some (CellObservable o) ->
  intercept_phase adm
    {| wc_type := update; wc_object := instance; wc_name := name;
       wc_newValue := newValue |} w = (Ok (Some v'), w1) ->
  prepareNewValue o v' = NewValue v'' ->
  exists w',
    setPropertyValue instance name newValue w = (Ok tt, w')
    /\ stored_value w' instance name = Some v''
    /\ log w' =
         (log w1 ++
          commit_events (spyEnabled w1) (default [] (adm_changeListeners adm))
            (ov_name o) v''
            (if hasListeners adm || spyEnabled w1
             then Some (update_change instance name (ov_value o) v'')
             else None))%list.
Proof.
  intros Hadm Hcell Hphase Hprep.
  destruct (intercept_phase_inv _ _ _ _ _ Hphase) as (calls & -> & Hc & _).
  unfold setPropertyValue.
  rewrite (bind_Ok _ _ _ _ _ (read_adm_Ok _ _ _ Hadm)).
  rewrite (bind_Ok _ _ _ _ _ Hphase).
  rewrite Hcell. unfold call_prepareNewValue. rewrite Hprep.
  unfold bind at 1. unfold ret at 1.
  unfold bind at 1. unfold isSpyEnabled, gets.
  set (w1 := add_events calls w).
  set (change := if hasListeners adm || spyEnabled w1 then _ else None).
  assert (Hadm1 : mobx (object_at w1 instance) = Some (SlotAdministration adm))
    by exact Hadm.
  unfold commit_events.
  destruct (spyEnabled w1) eqn:Hspy, (hasListeners adm) eqn:Hnotify;
    unfold when, setNewValue, bind_cell, update_adm, spyReportStart, spyReportEnd,
      notifyListeners, log_event, bind, modify, ret.
  all: rewrite ?object_at_add_events, ?Hadm1.
  all: eexists; (split; [reflexivity|]); split.
  all: try (unfold stored_value, cell_at; rewrite ?object_at_add_events;
            rewrite object_at_set_object_eq; cbn [mobx with_mobx adm_values with_values];
            now rewrite lookup_insert_eq).
  all: cbn [log add_events set_object set_objs];
       rewrite ?(hasListeners_false_nil _ Hnotify); cbn [map app];
       rewrite <- ?app_assoc; cbn [app]; rewrite ?app_nil_r; reflexivity.
Qed.

(** C1.  On a record with a registered interceptor, when the chain cancels
    the pending update the router returns at once: every object, and so
    the stored value of the cell, is as before, and the world has seen
    nothing but the calls of the interceptors; no trace report, no commit
    and no listener call. *)
Theorem setPropertyValue_veto_has_no_effect
    (instance : loc) (name : string) (newValue : value)
    (adm : ObservableObjectAdministration) (w w1 : World) :
  mobx (object_at w instance) = Some (SlotAdministration adm) ->
  hasInterceptors adm = true ->
  interceptChange adm
    {| wc_type := update; wc_object := instance; wc_name := name;
       wc_newValue := newValue |} w = (Ok None, w1) ->
  setPropertyValue instance name newValue w = (Ok tt, w1)
  /\ objs w1 = objs w
  /\ stored_value w1 instance name = stored_value w instance name
  /\ exists calls, log w1 = (log w ++ calls)%list /\ Forall is_intercept calls.
Proof.
  intros Hadm Hhas Hveto.
  assert (Hphase : intercept_phase adm
            {| wc_type := update; wc_object := instance; wc_name := name;
               wc_newValue := newValue |} w = (Ok None, w1)).
  { unfold intercept_phase. rewrite Hhas. now rewrite (bind_Ok _ _ _ _ _ Hveto). }
  destruct (intercept_phase_inv _ _ _ _ _ Hphase) as (calls & -> & Hc & _).
  split; [|split; [reflexivity|split; [reflexivity|]]].
  - unfold setPropertyValue.
    rewrite (bind_Ok _ _ _ _ _ (read_adm_Ok _ _ _ Hadm)).
    now rewrite (bind_Ok _ _ _ _ _ Hphase).
  - exists calls. split; [reflexivity | exact Hc].
Qed.

(** C2.  A write that commits lets the world see, after the calls of the
    interceptors and in this order: the start report of the trace when
    tracing is enabled, the commit of the cell, one call of every
    listener when there is one, the end report of the trace when tracing
    is enabled.  With tracing enabled and a listener registered the order
    is trace-start, commit, the listeners, trace-end, and trace and
    listeners are given the same change. *)
Theorem setPropertyValue_event_order
    (instance : loc) (name : string) (newValue v' v'' : value)
    (adm : ObservableObjectAdministration) (o : ObservableValue) (w w1 : World) :
  mobx (object_at w instance) = Some (SlotAdministration adm) ->
  adm_values adm !! name = Some (CellObservable o) ->
  intercept_phase adm
    {| wc_type := update; wc_object := instance; wc_name := name;
       wc_newValue := newValue |} w = (Ok (Some v'), w1) ->
  prepareNewValue o v' = NewValue v'' ->
  exists w' change,
    setPropertyValue instance name newValue w = (Ok tt, w')
    /\ stored_value w' instance name = Some v''
    /\ log w' =
         (log w1
          ++ (if spyEnabled w then [EvSpyStart change] else [])
          ++ [EvCommit (ov_name o) v'']
          ++ (if hasListeners adm
              then map (fun l => EvNotify l change) (default [] (adm_changeListeners adm))
              else [])
          ++ (if spyEnabled w then [EvSpyEnd] else []))%list
    /\ (spyEnabled w = true -> hasListeners adm = true ->
        default [] (adm_changeListeners adm) <> []
        /\ change = Some (update_change instance name (ov_value o) v'')
        /\ log w' =
             (log w1
              ++ [EvSpyStart change]
              ++ [EvCommit (ov_name o) v'']
              ++ map (fun l => EvNotify l change) (default [] (adm_changeListeners adm))
              ++ [EvSpyEnd])%list).
Proof.
  intros Hadm Hcell Hphase Hprep.
  destruct (setPropertyValue_commits _ _ _ _ _ _ _ _ _ Hadm Hcell Hphase Hprep)
    as (w' & Hrun & Hstored & Hlog).
  destruct (intercept_phase_inv _ _ _ _ _ Hphase) as (calls & Hw1 & _ & _).
  assert (Hspy : spyEnabled w1 = spyEnabled w) by now subst w1.
  rewrite Hspy in Hlog. unfold commit_events in Hlog.
  exists w', (if hasListeners adm || spyEnabled w
              then Some (update_change instance name (ov_value o) v'')
              else None).
  split; [exact Hrun|]. split; [exact Hstored|]. split.
  - rewrite Hlog. destruct (hasListeners adm) eqn:Hnotify; [reflexivity|].
    now rewrite (hasListeners_false_nil _ Hnotify).
  - intros Hs Hn. rewrite Hs, Hn in *. cbn [orb]. repeat split.
    + unfold hasListeners in Hn.
      destruct (adm_changeListeners adm) as [[|l ls]|]; easy.
    + exact Hlog.
Qed.

(** C3.  When the cell answers [UNCHANGED] to the candidate, which is
    the value the interceptors left, the router returns without an error:
    every object, and so the stored value, is as before, and the world
    has seen nothing but the calls of the interceptors. *)
Theorem setPropertyValue_unchanged_is_silent
    (instance : loc) (name : string) (newValue v' : value)
    (adm : ObservableObjectAdministration) (o : ObservableValue) (w w1 : World) :
  mobx (object_at w instance) = Some (SlotAdministration adm) ->
  adm_values adm !! name = Some (CellObservable o) ->
  intercept_phase adm
    {| wc_type := update; wc_object := instance; wc_name := name;
       wc_newValue := newValue |} w = (Ok (Some v'), w1) ->
  prepareNewValue o v' = UNCHANGED ->
  setPropertyValue instance name newValue w = (Ok tt, w1)
  /\ objs w1 = objs w
  /\ stored_value w1 instance name = Some (ov_value o)
  /\ exists calls, log w1 = (log w ++ calls)%list /\ Forall is_intercept calls.
Proof.
  intros Hadm Hcell Hphase Hprep.
  destruct (intercept_phase_inv _ _ _ _ _ Hphase) as (calls & -> & Hc & _).
  split; [|split; [reflexivity|split]].
  - unfold setPropertyValue.
    rewrite (bind_Ok _ _ _ _ _ (read_adm_Ok _ _ _ Hadm)).
    rewrite (bind_Ok _ _ _ _ _ Hphase).
    rewrite Hcell. unfold call_prepareNewValue. now rewrite Hprep.
  - unfold stored_value, cell_at. rewrite object_at_add_events, Hadm.
    now rewrite Hcell.
  - exists calls. split; [reflexivity | exact Hc].
Qed.

(** C4.  A write that commits on a record with listeners calls every
    listener, and no one else, with one update change: its [oldValue] is
    the value the cell stored before the call, its [newValue] the value
    the cell stores after it, which is what [prepareNewValue] made of the
    value the interceptors left. *)
Theorem update_notification_content
    (instance : loc) (name : string) (newValue v' v'' : value)
    (adm : ObservableObjectAdministration) (o : ObservableValue) (w w1 : World) :
  mobx (object_at w instance) = Some (SlotAdministration adm) ->
  adm_values adm !! name = Some (CellObservable o) ->
  intercept_phase adm
    {| wc_type := update; wc_object := instance; wc_name := name;
       wc_newValue := newValue |} w = (Ok (Some v'), w1) ->
  prepareNewValue o v' = NewValue v'' ->
  hasListeners adm = true ->
  exists w' change seen,
    setPropertyValue instance name newValue w = (Ok tt, w')
    /\ log w' = (log w ++ seen)%list
    /\ (forall l c, In (EvNotify l c) seen <->
                    In l (default [] (adm_changeListeners adm)) /\ c = Some change)
    /\ ch_type change = update
    /\ ch_name change = name
    /\ ch_oldValue change = stored_value w instance name
    /\ Some (ch_newValue change) = stored_value w' instance name
    /\ ch_newValue change = v''.
Proof.
  intros Hadm Hcell Hphase Hprep Hnotify.
  destruct (setPropertyValue_commits _ _ _ _ _ _ _ _ _ Hadm Hcell Hphase Hprep)
    as (w' & Hrun & Hstored & Hlog).
  destruct (intercept_phase_inv _ _ _ _ _ Hphase) as (calls & Hw1 & Hc & _).
  subst w1. change (spyEnabled (add_events calls w)) with (spyEnabled w) in Hlog.
  rewrite Hnotify in Hlog. cbn [orb] in Hlog.
  exists w', (update_change instance name (ov_value o) v'').
  eexists. split; [exact Hrun|]. split.
  { rewrite Hlog. cbn [log add_events]. rewrite <- app_assoc. reflexivity. }
  split; [|repeat split].
  - intros l c. unfold commit_events.
    rewrite !in_app_iff, in_map_iff. split.
    + intros [Hin|[Hin|[Hin|[Hin|Hin]]]].
      * rewrite Forall_forall in Hc.
        apply (proj2 (list_elem_of_In _ _)), Hc in Hin. exfalso. exact Hin.
      * destruct (spyEnabled w); simpl in Hin; intuition discriminate.
      * simpl in Hin. intuition discriminate.
      * destruct Hin as (l' & E & Hl'). inversion E; subst. auto.
      * destruct (spyEnabled w); simpl in Hin; intuition discriminate.
    + intros [Hl ->]. right. right. right. left. exists l. auto.
  - unfold stored_value, cell_at. rewrite Hadm, Hcell. reflexivity.
  - rewrite Hstored. reflexivity.
Qed.

(** C6, as the code has it.  The router has no check of its own for a
    name without a cell.  It first runs the interception phase; when the
    chain cancels it returns as for any other write, and otherwise the
    call of [prepareNewValue] on the absent cell fails with the
    [TypeError] of the host.  Either way no object has changed and the
    world has seen nothing but the calls of the interceptors. *)
Theorem setPropertyValue_unbound_name
    (instance : loc) (name : string) (newValue : value)
    (adm : ObservableObjectAdministration) (w : World) :
  mobx (object_at w instance) = Some (SlotAdministration adm) ->
  adm_values adm !! name = None ->
  exists intercepted w1,
    intercept_phase adm
      {| wc_type := update; wc_object := instance; wc_name := name;
         wc_newValue := newValue |} w = (Ok intercepted, w1)
    /\ setPropertyValue instance name newValue w =
         (match intercepted with
          | Some _ => Err TypeError
          | None => Ok tt
          end, w1)
    /\ (hasInterceptors adm = false -> intercepted = Some newValue)
    /\ objs w1 = objs w
    /\ exists calls, log w1 = (log w ++ calls)%list /\ Forall is_intercept calls.
Proof.
  intros Hadm Hcell.
  destruct (intercept_phase_total adm
              {| wc_type := update; wc_object := instance; wc_name := name;
                 wc_newValue := newValue |} w) as (r & calls & Hphase & Hc).
  exists r, (add_events calls w). split; [exact Hphase|]. split; [|split; [|split]].
  - unfold setPropertyValue.
    rewrite (bind_Ok _ _ _ _ _ (read_adm_Ok _ _ _ Hadm)).
    rewrite (bind_Ok _ _ _ _ _ Hphase).
    rewrite Hcell. destruct r; reflexivity.
  - intros Hno. unfold intercept_phase in Hphase. rewrite Hno in Hphase.
    now inversion Hphase.
  - reflexivity.
  - exists calls. split; [reflexivity | exact Hc].
Qed.

End RouterProperties.

(** ** The entry point and the predicate *)

Section ReactivationProperties.

Context {initializers : LazyInitializers}.

(** C8, as the code has it.  On an extensible target that carries no
    administration yet, the entry point attaches a fresh administration.
    For a plain record its name is the name the caller gave, when this is
    not empty, and ["ObservableObject@N"] otherwise.  For an instance of
    a class the name is always ["<TypeName>@N"], whatever name the caller
    gave, and ["ObservableObject@N"] when the constructor has no name.
    [N] is the next unique id. *)
Theorem asObservableObject_name
    (target : loc) (name : option string) (w w1 : World) :
  isObservableObject (VObject target) w = (Ok false, w1) ->
  extensible (object_at w1 target) = true ->
  exists w2,
    asObservableObject target name w = (Ok target, w2)
    /\ mobx (object_at w2 target) =
         Some (SlotAdministration
                 (new_ObservableObjectAdministration target
                    (derived_name (object_at w1 target) name (mobxGuid w1 + 1)))).
Proof.
  intros Hobs Hext. unfold asObservableObject.
  rewrite (bind_Ok _ _ _ _ _ Hobs). cbn iota.
  unfold bind at 1. unfold gets at 1. rewrite Hext. unfold invariant.
  unfold bind at 1. unfold ret at 1.
  unfold derived_name, isPlainObject, constructor_name_or_default, constructor_name.
  destruct (prototype (object_at w1 target)) as [| |typeName] eqn:Hproto; cbn [negb].
  1,2: unfold bind at 1; unfold ret at 1;
       destruct name as [[|c given]|]; cbn [no_name default];
       unfold getNextId, bind, gets, modify, ret, addHiddenFinalProp_mobx;
       eexists; (split; [reflexivity|]); now rewrite object_at_set_object_eq.
  unfold bind at 1. unfold getNextId at 1. unfold bind at 1. unfold gets at 1.
  unfold bind at 1. unfold modify at 1. unfold ret at 1. unfold ret at 1.
  destruct typeName as [|c typeName].
  - cbn [no_name append default]. unfold bind, ret, addHiddenFinalProp_mobx, modify.
    eexists. split; [reflexivity|]. now rewrite object_at_set_object_eq.
  - cbn [no_name append default]. unfold bind, ret, addHiddenFinalProp_mobx, modify.
    eexists. split; [reflexivity|]. now rewrite object_at_set_object_eq.
Qed.

(** C10.  [isObservableObject] answers [false], without an error and
    without touching the world, for whatever is no object: [null],
    [undefined], numbers, strings, booleans.  For an object it first
    runs the lazy initializers, and then answers [true] exactly when the
    [$mobx] field, as the initializers left it, holds an administration. *)
Theorem isObservableObject_spec :
  (forall b n s, isObject VNull = false /\ isObject VUndefined = false
     /\ isObject (VNumber n) = false /\ isObject (VString s) = false
     /\ isObject (VBool b) = false)
  /\ (forall thing w,
        isObject thing = false -> isObservableObject thing w = (Ok false, w))
  /\ (forall thing w w1,
        isObject thing = true ->
        runLazyInitializers thing w = (Ok tt, w1) ->
        exists b,
          isObservableObject thing w = (Ok b, w1)
          /\ (b = true <->
              exists adm,
                read_mobx thing w1 = (Ok (Some (SlotAdministration adm)), w1))).
Proof.
  split; [intros; repeat split|]. split.
  - intros thing w Hno. unfold isObservableObject. now rewrite Hno.
  - intros thing w w1 Hobj Hinit. unfold isObservableObject. rewrite Hobj.
    rewrite (bind_Ok _ _ _ _ _ Hinit).
    assert (Hread : exists slot, read_mobx thing w1 = (Ok slot, w1)).
    { unfold read_mobx. destruct thing; unfold gets, ret; eauto. }
    destruct Hread as (slot & Hread).
    exists (isObservableObjectAdministration slot). split.
    + now rewrite (bind_Ok _ _ _ _ _ Hread).
    + rewrite Hread. unfold isObservableObjectAdministration.
      destruct slot as [[adm|v]|]; split; try discriminate; eauto.
      all: intros (adm' & E); inversion E.
Qed.

End ReactivationProperties.

(** ** The installers *)

Lemma initial_world_memo_wf : memo_wf initial_world.
Proof. split; intros p c E; simpl in E; now rewrite lookup_empty in E. Qed.

Lemma memo_wf_same_tables w w' :
  observablePropertyConfigs w' = observablePropertyConfigs w ->
  computedPropertyConfigs w' = computedPropertyConfigs w ->
  memo_wf w -> memo_wf w'.
Proof. intros E1 E2 [H1 H2]. unfold memo_wf. rewrite E1, E2. auto. Qed.

Lemma table_get_entry {A} (table : gmap string A) name a :
  table !! name = Some a -> table_get table name = Some (Entry a).
Proof. intros E. unfold table_get. now rewrite E. Qed.

Lemma table_get_None {A} (table : gmap string A) name :
  table_get table name = None <-> table !! name = None /\ inherited name = false.
Proof.
  unfold table_get. destruct (table !! name); [split; [discriminate | intros [? _]; discriminate]|].
  destruct (inherited name); split; try discriminate; auto. intros [_ ?]; discriminate.
Qed.

Lemma finds_member_spec {A} (table : gmap string A) name :
  finds_member table name = true <-> table !! name = None /\ inherited name = true.
Proof.
  unfold finds_member, table_get. destruct (table !! name).
  - split; [discriminate | intros [? _]; discriminate].
  - destruct (inherited name); split; auto; try discriminate. intros [_ ?]; discriminate.
Qed.

Lemma finds_member_not_inherited {A} (table : gmap string A) name :
  inherited name = false -> finds_member table name = false.
Proof.
  intros Hname. destruct (finds_member table name) eqn:E; [|reflexivity].
  apply finds_member_spec in E as [_ E]. congruence.
Qed.

Lemma generateObservablePropConfig_total propName w :
  memo_wf w ->
  exists w',
    generateObservablePropConfig propName w
    = (Ok (generated (observablePropertyConfigs w) propName (observable_config propName)),
       w')
    /\ same_heap w w' /\ memo_wf w'.
Proof.
  intros [Hobs Hcomp]. unfold generateObservablePropConfig, generated, finds_member,
    bind, gets, table_get.
  destruct (observablePropertyConfigs w !! propName) as [c|] eqn:E.
  - rewrite (Hobs _ _ E). exists w. repeat split; auto.
  - destruct (inherited propName).
    + exists w. repeat split; auto.
    + unfold modify, ret. eexists. split; [reflexivity|]. repeat split; auto.
      intros p c. cbn [observablePropertyConfigs set_observablePropertyConfigs].
      rewrite lookup_insert. case_decide; [|apply Hobs].
      intros E'; inversion E'; subst. reflexivity.
Qed.

Lemma generateComputedPropConfig_total propName w :
  memo_wf w ->
  exists w',
    generateComputedPropConfig propName w
    = (Ok (generated (computedPropertyConfigs w) propName (computed_config propName)), w')
    /\ same_heap w w' /\ memo_wf w'.
Proof.
  intros [Hobs Hcomp]. unfold generateComputedPropConfig, generated, finds_member,
    bind, gets, table_get.
  destruct (computedPropertyConfigs w !! propName) as [c|] eqn:E.
  - rewrite (Hcomp _ _ E). exists w. repeat split; auto.
  - destruct (inherited propName).
    + exists w. repeat split; auto.
    + unfold modify, ret. eexists. split; [reflexivity|]. repeat split; auto.
      intros p c. cbn [computedPropertyConfigs set_computedPropertyConfigs].
      rewrite lookup_insert. case_decide; [|apply Hcomp].
      intros E'; inversion E'; subst. reflexivity.
Qed.

Lemma object_at_same_heap w w' l : same_heap w w' -> object_at w' l = object_at w l.
Proof. intros (E & _). unfold object_at. now rewrite E. Qed.

Lemma update_adm_Ok carrier f adm w :
  mobx (object_at w carrier) = Some (SlotAdministration adm) ->
  update_adm carrier f w =
    (Ok tt, set_object carrier
              (with_mobx (Some (SlotAdministration (f adm))) (object_at w carrier)) w).
Proof. intros E. unfold update_adm, modify. now rewrite E. Qed.

(** Binding a cell changes the [$mobx] field of the carrier and nothing
    else. *)
Lemma properties_after_bind carrier slot w l :
  properties (object_at (set_object carrier (with_mobx slot (object_at w carrier)) w) l)
  = properties (object_at w l).
Proof.
  destruct (decide (carrier = l)) as [->|Hne].
  - now rewrite object_at_set_object_eq.
  - now rewrite object_at_set_object_ne.
Qed.

Lemma extensible_after_bind carrier slot w l :
  extensible (object_at (set_object carrier (with_mobx slot (object_at w carrier)) w) l)
  = extensible (object_at w l).
Proof.
  destruct (decide (carrier = l)) as [->|Hne].
  - now rewrite object_at_set_object_eq.
  - now rewrite object_at_set_object_ne.
Qed.

(** Defining a property changes the properties of the object and
    nothing else. *)
Lemma mobx_after_define object ps w l :
  mobx (object_at (set_object object (with_properties ps (object_at w object)) w) l)
  = mobx (object_at w l).
Proof.
  destruct (decide (object = l)) as [->|Hne].
  - now rewrite object_at_set_object_eq.
  - now rewrite object_at_set_object_ne.
Qed.

Lemma Object_defineProperty_Ok object prop config w :
  isPropertyConfigurable (object_at w object) prop = true ->
  (properties (object_at w object) !! prop = None ->
   extensible (object_at w object) = true) ->
  Object_defineProperty object prop (Entry config) w =
    (Ok tt, set_object object
              (with_properties
                 (<[prop := AccessorProperty config]> (properties (object_at w object)))
                 (object_at w object)) w).
Proof.
  intros Hconf Hext. unfold Object_defineProperty, bind, gets.
  unfold isPropertyConfigurable in Hconf.
  destruct (properties (object_at w object) !! prop) as [p|].
  - now rewrite Hconf.
  - now rewrite Hext.
Qed.

(** Defining a property that can be configured, or an absent one on an
    extensible object, succeeds for whatever the generator returned: the
    property becomes [defined_property] and nothing else changes. *)
Lemma Object_defineProperty_defined object prop attributes w :
  isPropertyConfigurable (object_at w object) prop = true ->
  (properties (object_at w object) !! prop = None ->
   extensible (object_at w object) = true) ->
  exists w',
    Object_defineProperty object prop attributes w = (Ok tt, w')
    /\ properties (object_at w' object) !! prop
       = Some (defined_property attributes (properties (object_at w object) !! prop))
    /\ (forall l, mobx (object_at w' l) = mobx (object_at w l))
    /\ log w' = log w /\ spyEnabled w' = spyEnabled w
    /\ observablePropertyConfigs w' = observablePropertyConfigs w
    /\ computedPropertyConfigs w' = computedPropertyConfigs w.
Proof.
  intros Hconf Hext. destruct attributes as [config|name].
  - rewrite (Object_defineProperty_Ok _ _ _ _ Hconf Hext). eexists. split; [reflexivity|].
    split; [|split; [intros l; apply mobx_after_define | repeat split]].
    rewrite object_at_set_object_eq. cbn [properties with_properties defined_property].
    now rewrite lookup_insert_eq.
  - unfold Object_defineProperty, bind, gets.
    destruct (properties (object_at w object) !! prop) as [p|] eqn:E.
    + exists w. unfold ret. rewrite E. repeat split; auto.
    + rewrite (Hext eq_refl). unfold modify. eexists. split; [reflexivity|].
      split; [|split; [intros l; apply mobx_after_define | repeat split]].
      rewrite object_at_set_object_eq. cbn [properties with_properties defined_property].
      now rewrite lookup_insert_eq.
Qed.

Section InstallerProperties.

Context {policy : CellPolicy}.

Lemma notifyPropertyAddition_total adm object name newValue w :
  exists seen,
    notifyPropertyAddition adm object name newValue w = (Ok tt, add_events seen w).
Proof.
  unfold notifyPropertyAddition, isSpyEnabled, bind, gets.
  destruct (spyEnabled w) eqn:Hspy, (hasListeners adm);
    unfold when, spyReportStart, spyReportEnd, notifyListeners, log_event, bind,
      modify, ret; rewrite ?add_events_app; eauto.
  exists []. now rewrite add_events_nil.
Qed.

(** C9.  Installing a value cell as an instance property, on a target
    whose property of that name can be configured and with a chain that
    does not cancel the addition, succeeds and binds the name to a fresh
    value cell.  For a name that is no member of [Object.prototype] the
    target then has an accessor property for it, which is enumerable and
    configurable and whose setter is the router, while a computed
    configuration is not enumerable.  For a name the memo table inherits
    from [Object.prototype] the generator returns the inherited member
    and no accessor is defined: a property that was there is left as it
    was, and an absent one is added as a data property that holds
    [undefined] and is neither enumerable nor configurable. *)
Theorem observable_property_is_enumerable
    (adm : loc) (propName : string) (newValue v' : value) (enhancer : IEnhancer)
    (a : ObservableObjectAdministration) (w w1 : World) :
  mobx (object_at w adm) = Some (SlotAdministration a) ->
  memo_wf w ->
  isPropertyConfigurable (object_at w (adm_target a)) propName = true ->
  (properties (object_at w (adm_target a)) !! propName = None ->
   extensible (object_at w (adm_target a)) = true) ->
  intercept_phase a
    {| wc_object := adm_target a; wc_name := propName; wc_type := add;
       wc_newValue := newValue |} w = (Ok (Some v'), w1) ->
  (exists w',
     defineObservableProperty adm propName newValue enhancer true w = (Ok tt, w')
     /\ cell_at w' adm propName =
          Some (CellObservable
                  (new_ObservableValue v' enhancer (adm_name a +:+ "." +:+ propName)))
     /\ if finds_member (observablePropertyConfigs w) propName
        then properties (object_at w' (adm_target a)) !! propName
             = Some (left_by_member (properties (object_at w (adm_target a)) !! propName))
        else exists config,
               properties (object_at w' (adm_target a)) !! propName
               = Some (AccessorProperty config)
               /\ set config = SetThroughRouter propName
               /\ enumerable config = true
               /\ configurable config = true)
  /\ (exists w' found,
        generateComputedPropConfig propName w = (Ok found, w')
        /\ if finds_member (computedPropertyConfigs w) propName
           then found = Member propName
           else exists config, found = Entry config /\ enumerable config = false).
Proof.
  intros Hadm Hmemo Hconf Hext Hphase. split.
  2:{ destruct (generateComputedPropConfig_total propName w Hmemo) as (w' & E & _).
      exists w'. eexists. split; [exact E|]. unfold generated.
      destruct (finds_member _ _); [reflexivity|]. now exists (computed_config propName). }
  destruct (intercept_phase_inv _ _ _ _ _ Hphase) as (calls & -> & _ & _).
  unfold defineObservableProperty.
  rewrite (bind_Ok _ _ _ _ _ (read_adm_Ok _ _ _ Hadm)).
  unfold when at 1. unfold assertPropertyConfigurable.
  unfold bind at 1. unfold bind at 1. unfold gets at 1. rewrite Hconf.
  unfold invariant at 1. unfold ret at 1.
  rewrite (bind_Ok _ _ _ _ _ Hphase).
  unfold bind_cell.
  assert (Hadm1 : mobx (object_at (add_events calls w) adm) = Some (SlotAdministration a))
    by exact Hadm.
  rewrite (bind_Ok _ _ _ _ _ (update_adm_Ok _ _ _ _ Hadm1)).
  set (wb := set_object adm _ (add_events calls w)).
  assert (Hmemo_b : memo_wf wb) by (revert Hmemo; now apply memo_wf_same_tables).
  destruct (generateObservablePropConfig_total propName wb Hmemo_b)
    as (wg & Hgen & Hsame & _).
  change (observablePropertyConfigs wb) with (observablePropertyConfigs w) in Hgen.
  unfold when at 1. unfold bind at 1. rewrite (bind_Ok _ _ _ _ _ Hgen).
  assert (Hprops : properties (object_at wg (adm_target a))
                   = properties (object_at w (adm_target a))).
  { rewrite (object_at_same_heap _ _ _ Hsame). unfold wb.
    now rewrite properties_after_bind. }
  assert (Hexts : extensible (object_at wg (adm_target a))
                  = extensible (object_at w (adm_target a))).
  { rewrite (object_at_same_heap _ _ _ Hsame). unfold wb.
    now rewrite extensible_after_bind. }
  destruct (Object_defineProperty_defined (adm_target a) propName
              (generated (observablePropertyConfigs w) propName (observable_config propName))
              wg) as (wd & Hdef & Hprop & Hslot & _).
  { unfold isPropertyConfigurable. now rewrite Hprops. }
  { now rewrite Hprops, Hexts. }
  rewrite Hdef.
  destruct (notifyPropertyAddition_total a (adm_target a) propName
              (ov_value (new_ObservableValue v' enhancer (adm_name a +:+ "." +:+ propName)))
              wd) as (seen & Hnotify).
  rewrite Hnotify.
  exists (add_events seen wd).
  split; [reflexivity|]. split.
  - unfold cell_at. rewrite object_at_add_events, Hslot.
    rewrite (object_at_same_heap _ _ _ Hsame).
    unfold wb. rewrite object_at_set_object_eq.
    cbn [mobx with_mobx adm_values with_values]. now rewrite lookup_insert_eq.
  - rewrite object_at_add_events, Hprop, Hprops. unfold generated.
    destruct (finds_member (observablePropertyConfigs w) propName); [reflexivity|].
    exists (observable_config propName). repeat split.
Qed.


Lemma Object_defineProperty_mobx object prop attributes w r w' :
  Object_defineProperty object prop attributes w = (r, w') ->
  forall l, mobx (object_at w' l) = mobx (object_at w l).
Proof.
  unfold Object_defineProperty, bind, gets, modify, ret, throw.
  destruct attributes as [config|name].
  - destruct (match properties (object_at w object) !! prop with
              | Some p => property_configurable p
              | None => extensible (object_at w object)
              end); intros [= <- <-] l; [apply mobx_after_define | reflexivity].
  - destruct (properties (object_at w object) !! prop); [now intros [= <- <-]|].
    destruct (extensible (object_at w object)); intros [= <- <-] l;
      [apply mobx_after_define | reflexivity].
Qed.




End InstallerProperties.

(** ** Single binding *)

Lemma kinds_preserved_refl w : kinds_preserved w w.
Proof. intros l p c E. eauto. Qed.

Lemma kinds_preserved_trans w1 w2 w3 :
  kinds_preserved w1 w2 -> kinds_preserved w2 w3 -> kinds_preserved w1 w3.
Proof.
  intros H12 H23 l p c E. destruct (H12 _ _ _ E) as (c2 & E2 & K2).
  destruct (H23 _ _ _ E2) as (c3 & E3 & K3). exists c3. split; congruence.
Qed.

Lemma kinds_preserved_same_mobx w w' :
  (forall l, mobx (object_at w' l) = mobx (object_at w l)) -> kinds_preserved w w'.
Proof. intros Hsame l p c E. exists c. unfold cell_at in *. now rewrite Hsame. Qed.

Lemma kinds_preserved_same_objs w w' : objs w' = objs w -> kinds_preserved w w'.
Proof.
  intros E. apply kinds_preserved_same_mobx. intros l. unfold object_at. now rewrite E.
Qed.

(** Binding a cell to a name keeps the kinds when the name is free or
    bound to a cell of the same kind. *)
Lemma kinds_preserved_bind_cell carrier propName cell a w :
  mobx (object_at w carrier) = Some (SlotAdministration a) ->
  (forall c, adm_values a !! propName = Some c -> cell_kind c = cell_kind cell) ->
  kinds_preserved w
    (set_object carrier
       (with_mobx
          (Some (SlotAdministration
                   (with_values (<[propName := cell]> (adm_values a)) a)))
          (object_at w carrier)) w).
Proof.
  intros Hadm Hkind l p c. unfold cell_at.
  destruct (decide (carrier = l)) as [->|Hne].
  - rewrite object_at_set_object_eq, Hadm. cbn [mobx with_mobx adm_values with_values].
    rewrite lookup_insert. case_decide as Hp.
    + subst p. intros E. exists cell. split; [reflexivity|]. symmetry. now apply Hkind.
    + eauto.
  - rewrite object_at_set_object_ne by exact Hne. eauto.
Qed.

Lemma exec_bind {A B} (m : M A) (k : A -> M B) w :
  exec (bind m k) w =
  match m w with
  | (Ok a, w') => exec (k a) w'
  | (Err _, w') => w'
  end.
Proof. unfold exec, bind. destruct (m w) as [[a|e] w']; reflexivity. Qed.

Lemma keeps_kinds_bind {A B} (m : M A) (k : A -> M B) :
  keeps_kinds m -> (forall a, keeps_kinds (k a)) -> keeps_kinds (bind m k).
Proof.
  intros Hm Hk w. rewrite exec_bind. specialize (Hm w). unfold exec in Hm.
  destruct (m w) as [[a|e] w']; [|exact Hm].
  eapply kinds_preserved_trans; [exact Hm | apply Hk].
Qed.

Lemma keeps_kinds_ret {A} (a : A) : keeps_kinds (ret a).
Proof. intros w. apply kinds_preserved_refl. Qed.

Lemma keeps_kinds_throw {A} e : keeps_kinds (@throw A e).
Proof. intros w. apply kinds_preserved_refl. Qed.

Lemma keeps_kinds_gets {A} (f : World -> A) : keeps_kinds (gets f).
Proof. intros w. apply kinds_preserved_refl. Qed.

Lemma keeps_kinds_modify (f : World -> World) :
  (forall w, kinds_preserved w (f w)) -> keeps_kinds (modify f).
Proof. intros Hf w. apply Hf. Qed.

Lemma keeps_kinds_when b (m : M unit) : keeps_kinds m -> keeps_kinds (when b m).
Proof. intros Hm. destruct b; [exact Hm | apply keeps_kinds_ret]. Qed.

Lemma keeps_kinds_invariant b e : keeps_kinds (invariant b e).
Proof. destruct b; [apply keeps_kinds_ret | apply keeps_kinds_throw]. Qed.

Lemma keeps_kinds_log_event e : keeps_kinds (log_event e).
Proof. intros w. now apply kinds_preserved_same_objs. Qed.

Lemma keeps_kinds_intercept_phase adm change : keeps_kinds (intercept_phase adm change).
Proof.
  intros w. destruct (intercept_phase_total adm change w) as (r & calls & E & _).
  unfold exec. rewrite E. now apply kinds_preserved_same_objs.
Qed.

Lemma keeps_kinds_assertPropertyConfigurable object prop :
  keeps_kinds (assertPropertyConfigurable object prop).
Proof.
  apply keeps_kinds_bind; [apply keeps_kinds_gets | intros o; apply keeps_kinds_invariant].
Qed.

Lemma keeps_kinds_Object_defineProperty object prop config :
  keeps_kinds (Object_defineProperty object prop config).
Proof.
  intros w. apply kinds_preserved_same_mobx. intros l.
  unfold exec, Object_defineProperty, bind, gets, modify, ret, throw.
  destruct config as [config|name].
  - destruct (match properties (object_at w object) !! prop with
              | Some p => property_configurable p
              | None => extensible (object_at w object)
              end); [apply mobx_after_define | reflexivity].
  - destruct (properties (object_at w object) !! prop); [reflexivity|].
    destruct (extensible (object_at w object)); [apply mobx_after_define | reflexivity].
Qed.

Lemma keeps_kinds_notifyListeners adm change : keeps_kinds (notifyListeners adm change).
Proof. intros w. now apply kinds_preserved_same_objs. Qed.

Create HintDb kinds.

#[local] Hint Resolve keeps_kinds_ret keeps_kinds_throw keeps_kinds_gets
  keeps_kinds_when keeps_kinds_invariant keeps_kinds_log_event
  keeps_kinds_intercept_phase keeps_kinds_assertPropertyConfigurable
  keeps_kinds_Object_defineProperty keeps_kinds_notifyListeners : kinds.

Ltac kinds_step :=
  repeat first
    [ apply keeps_kinds_bind; [|intros ?]
    | progress auto with kinds ].

Section SingleBinding.

Context {policy : CellPolicy}.

Lemma keeps_kinds_generateObservablePropConfig propName :
  keeps_kinds (generateObservablePropConfig propName).
Proof.
  unfold generateObservablePropConfig. kinds_step.
  match goal with |- keeps_kinds (match ?x with _ => _ end) => destruct x end;
    kinds_step.
  apply keeps_kinds_modify. intros w. now apply kinds_preserved_same_objs.
Qed.

Lemma keeps_kinds_generateComputedPropConfig propName :
  keeps_kinds (generateComputedPropConfig propName).
Proof.
  unfold generateComputedPropConfig. kinds_step.
  match goal with |- keeps_kinds (match ?x with _ => _ end) => destruct x end;
    kinds_step.
  apply keeps_kinds_modify. intros w. now apply kinds_preserved_same_objs.
Qed.

Lemma keeps_kinds_notifyPropertyAddition adm object name newValue :
  keeps_kinds (notifyPropertyAddition adm object name newValue).
Proof.
  unfold notifyPropertyAddition, isSpyEnabled, spyReportStart, spyReportEnd.
  kinds_step.
Qed.

(** A commit keeps the kinds when the name is not bound to a computed
    cell. *)
Lemma setNewValue_kinds owner propName observable newValue w :
  (forall c, cell_at w owner propName = Some c -> cell_kind c = ValueCell) ->
  kinds_preserved w (exec (setNewValue owner propName observable newValue) w).
Proof.
  intros Hkind. unfold setNewValue, bind_cell. rewrite exec_bind.
  destruct (mobx (object_at w owner)) as [[a|v]|] eqn:Hadm.
  - rewrite (update_adm_Ok _ _ _ _ Hadm).
    eapply kinds_preserved_trans; [|apply keeps_kinds_log_event].
    apply kinds_preserved_bind_cell; [exact Hadm|].
    intros c E. apply Hkind. unfold cell_at. now rewrite Hadm.
  - unfold update_adm, modify. rewrite Hadm. apply keeps_kinds_log_event.
  - unfold update_adm, modify. rewrite Hadm. apply keeps_kinds_log_event.
Qed.

Lemma keeps_kinds_setPropertyValue instance name newValue :
  keeps_kinds (setPropertyValue instance name newValue).
Proof.
  intros w. unfold setPropertyValue. rewrite exec_bind.
  destruct (read_adm instance w) as [[adm|e] w0] eqn:Hread.
  2:{ unfold read_adm, read_mobx, bind, gets, ret, throw in Hread.
      destruct (mobx (object_at w instance)) as [[a|v]|]; inversion Hread;
        apply kinds_preserved_refl. }
  apply read_adm_inv in Hread as [-> Hadm]. rewrite exec_bind.
  destruct (intercept_phase_total adm
              {| wc_type := update; wc_object := instance; wc_name := name;
                 wc_newValue := newValue |} w) as (r & calls & -> & _).
  assert (Hlog : kinds_preserved w (add_events calls w))
    by now apply kinds_preserved_same_objs.
  destruct r as [v'|]; [|exact Hlog].
  rewrite exec_bind. unfold call_prepareNewValue.
  destruct (adm_values adm !! name) as [[o|c]|] eqn:Hcell; try exact Hlog.
  unfold ret at 1. destruct (prepareNewValue o v') as [|v''|e]; [exact Hlog| |exact Hlog].
  eapply kinds_preserved_trans; [exact Hlog|].
  assert (Hvalue : forall w', objs w' = objs w ->
            forall c, cell_at w' instance name = Some c -> cell_kind c = ValueCell).
  { intros w' Hw' c. unfold cell_at, object_at. rewrite Hw'.
    fold (object_at w instance). rewrite Hadm, Hcell. now intros [= <-]. }
  unfold isSpyEnabled. rewrite exec_bind. unfold gets at 1.
  rewrite exec_bind.
  set (change := if hasListeners adm || spyEnabled (add_events calls w) then _ else None).
  destruct (when (spyEnabled (add_events calls w)) (spyReportStart change)
              (add_events calls w)) as [[[]|e] ws] eqn:Hstart.
  2:{ unfold when, spyReportStart, log_event, modify, ret in Hstart.
      destruct (spyEnabled (add_events calls w)); inversion Hstart. }
  assert (Hws : objs ws = objs w).
  { unfold when, spyReportStart, log_event, modify, ret in Hstart.
    destruct (spyEnabled (add_events calls w)); inversion Hstart; reflexivity. }
  apply (kinds_preserved_trans _ ws); [now apply kinds_preserved_same_objs|].
  rewrite exec_bind.
  pose proof (setNewValue_kinds instance name o v'' ws (Hvalue ws Hws)) as Hcommit.
  unfold exec in Hcommit.
  destruct (setNewValue instance name o v'' ws) as [[[]|e] wc]; [|exact Hcommit].
  eapply kinds_preserved_trans; [exact Hcommit|].
  unfold spyReportEnd. apply (keeps_kinds_bind (when _ _)); [|intros ?]; kinds_step.
Qed.

Lemma keeps_kinds_call_setter setter this v : keeps_kinds (call_setter setter this v).
Proof.
  destruct setter as [propName|propName]; [apply keeps_kinds_setPropertyValue|].
  intros w. unfold call_setter. rewrite exec_bind.
  destruct (read_adm this w) as [[adm|e] w0] eqn:Hread.
  2:{ unfold read_adm, read_mobx, bind, gets, ret, throw in Hread.
      destruct (mobx (object_at w this)) as [[a|x]|]; inversion Hread;
        apply kinds_preserved_refl. }
  apply read_adm_inv in Hread as [-> Hadm].
  destruct (adm_values adm !! propName) as [[o|c]|] eqn:Hcell.
  - unfold ObservableValue_set. destruct (prepareNewValue o v);
      [apply kinds_preserved_refl| |apply kinds_preserved_refl].
    apply setNewValue_kinds. intros c. unfold cell_at. rewrite Hadm, Hcell.
    now intros [= <-].
  - apply keeps_kinds_log_event.
  - apply kinds_preserved_refl.
Qed.

Lemma keeps_kinds_assign_property object prop v :
  keeps_kinds (assign_property object prop v).
Proof.
  intros w. unfold assign_property. rewrite exec_bind. unfold gets at 1.
  destruct (properties (object_at w object) !! prop) as [[x writable e c|config]|].
  - destruct writable; [|apply kinds_preserved_refl].
    apply kinds_preserved_same_mobx. intros l. apply mobx_after_define.
  - apply keeps_kinds_call_setter.
  - destruct (extensible (object_at w object)); [|apply kinds_preserved_refl].
    apply kinds_preserved_same_mobx. intros l. apply mobx_after_define.
Qed.

(** The installers keep the kinds when the name is free. *)
Lemma defineObservableProperty_kinds adm propName newValue enhancer asInstanceProperty w :
  cell_at w adm propName = None ->
  kinds_preserved w
    (exec (defineObservableProperty adm propName newValue enhancer asInstanceProperty) w).
Proof.
  intros Hfree. unfold defineObservableProperty. rewrite exec_bind.
  destruct (read_adm adm w) as [[a|e] w0] eqn:Hread.
  2:{ unfold read_adm, read_mobx, bind, gets, ret, throw in Hread.
      destruct (mobx (object_at w adm)) as [[a|x]|]; inversion Hread;
        apply kinds_preserved_refl. }
  apply read_adm_inv in Hread as [-> Hadm]. rewrite exec_bind.
  assert (Hassert : exists r,
            when asInstanceProperty (assertPropertyConfigurable (adm_target a) propName) w
            = (r, w)).
  { unfold when, assertPropertyConfigurable, bind, gets, invariant, ret, throw.
    destruct asInstanceProperty; [|eauto].
    destruct (isPropertyConfigurable (object_at w (adm_target a)) propName); eauto. }
  destruct Hassert as (r & ->). destruct r as [[]|e]; [|apply kinds_preserved_refl].
  rewrite exec_bind.
  destruct (intercept_phase_total a
              {| wc_object := adm_target a; wc_name := propName; wc_type := add;
                 wc_newValue := newValue |} w) as (r & calls & -> & _).
  assert (Hlog : kinds_preserved w (add_events calls w))
    by now apply kinds_preserved_same_objs.
  destruct r as [v'|]; [|exact Hlog].
  eapply kinds_preserved_trans; [exact Hlog|].
  rewrite exec_bind. unfold bind_cell.
  assert (Hadm1 : mobx (object_at (add_events calls w) adm) = Some (SlotAdministration a))
    by exact Hadm.
  rewrite (update_adm_Ok _ _ _ _ Hadm1).
  match goal with
  | |- kinds_preserved _ (exec _ ?wb) => apply (kinds_preserved_trans _ wb)
  end.
  { apply kinds_preserved_bind_cell; [exact Hadm1|].
    intros c E. unfold cell_at in Hfree. rewrite Hadm in Hfree. congruence. }
  apply (keeps_kinds_bind (when _ _)).
  - apply keeps_kinds_when. apply keeps_kinds_bind;
      [apply keeps_kinds_generateObservablePropConfig|intros ?].
    apply keeps_kinds_Object_defineProperty.
  - intros ?. apply keeps_kinds_notifyPropertyAddition.
Qed.

Lemma install_computed_kinds adm propName (cell : ComputedValue)
    (asInstanceProperty : bool) a w :
  mobx (object_at w adm) = Some (SlotAdministration a) ->
  adm_values a !! propName = None ->
  kinds_preserved w
    (exec (bind_cell adm propName (CellComputed cell);;
           when asInstanceProperty
             (let! config := generateComputedPropConfig propName in
              Object_defineProperty (adm_target a) propName config)) w).
Proof.
  intros Hadm Hfree. rewrite exec_bind. unfold bind_cell.
  rewrite (update_adm_Ok _ _ _ _ Hadm).
  match goal with
  | |- kinds_preserved _ (exec _ ?wb) => apply (kinds_preserved_trans _ wb)
  end.
  { apply kinds_preserved_bind_cell; [exact Hadm|]. intros c E. congruence. }
  apply keeps_kinds_when. apply keeps_kinds_bind;
    [apply keeps_kinds_generateComputedPropConfig|intros ?].
  apply keeps_kinds_Object_defineProperty.
Qed.

Lemma keeps_kinds_defineObservablePropertyFromDescriptor adm propName descriptor
    defaultEnhancer :
  keeps_kinds
    (defineObservablePropertyFromDescriptor adm propName descriptor defaultEnhancer).
Proof.
  intros w. unfold defineObservablePropertyFromDescriptor. rewrite exec_bind.
  destruct (read_adm adm w) as [[a|e] w0] eqn:Hread.
  2:{ unfold read_adm, read_mobx, bind, gets, ret, throw in Hread.
      destruct (mobx (object_at w adm)) as [[a|x]|]; inversion Hread;
        apply kinds_preserved_refl. }
  apply read_adm_inv in Hread as [-> Hadm].
  destruct (table_get (adm_values a) propName) as [found|] eqn:Hcell.
  - apply (keeps_kinds_bind (invariant _ _));
      [apply keeps_kinds_invariant | intros ?; apply keeps_kinds_assign_property].
  - apply table_get_None in Hcell as [Hcell _].
    assert (Hfree : cell_at w adm propName = None).
    { unfold cell_at. now rewrite Hadm. }
    destruct descriptor as [v|getter setter].
    + destruct v; try (now apply defineObservableProperty_kinds).
      unfold defineComputedPropertyFromComputedValue. rewrite exec_bind.
      rewrite (read_adm_Ok _ _ _ Hadm). cbv zeta. now apply install_computed_kinds.
    + unfold defineComputedProperty. rewrite exec_bind.
      rewrite (read_adm_Ok _ _ _ Hadm). rewrite exec_bind.
      unfold when at 1. unfold assertPropertyConfigurable, bind at 1, gets at 1.
      destruct (isPropertyConfigurable (object_at w (adm_target a)) propName);
        [|apply kinds_preserved_refl].
      now apply install_computed_kinds.
Qed.

(** C5, as the code has it.  Installs from descriptors never change the
    kind of a binding: after any sequence of them every name that was
    bound is bound to a cell of the kind it had.  On a bound name a
    getter/setter descriptor is refused with [RedefinitionConflict] and
    the world is left as it was; a descriptor with a plain value is not
    an installation but the assignment of that value to the property of
    the owner, whatever kind of cell the name is bound to. *)
Theorem single_binding_from_descriptors :
  (forall requests w, kinds_preserved w (install_all requests w))
  /\ (forall adm propName getter setter enhancer w bound,
        cell_at w adm propName = Some bound ->
        defineObservablePropertyFromDescriptor adm propName
          (AccessorDescriptor getter setter) enhancer w
        = (Err RedefinitionConflict, w))
  /\ (forall adm propName v enhancer w a bound,
        mobx (object_at w adm) = Some (SlotAdministration a) ->
        adm_values a !! propName = Some bound ->
        plain_value v = true ->
        defineObservablePropertyFromDescriptor adm propName
          (ValueDescriptor v) enhancer w
        = assign_property (adm_target a) propName v w).
Proof.
  split; [|split].
  - intros requests. induction requests as [|[[[adm propName] descriptor] enhancer] rest IH];
      intros w.
    + apply kinds_preserved_refl.
    + cbn [install_all fold_left].
      eapply kinds_preserved_trans;
        [apply keeps_kinds_defineObservablePropertyFromDescriptor | apply IH].
  - intros adm propName getter setter enhancer w bound Hbound.
    unfold cell_at in Hbound.
    destruct (mobx (object_at w adm)) as [[a|x]|] eqn:Hadm; try discriminate.
    unfold defineObservablePropertyFromDescriptor.
    rewrite (bind_Ok _ _ _ _ _ (read_adm_Ok _ _ _ Hadm)).
    now rewrite (table_get_entry _ _ _ Hbound).
  - intros adm propName v enhancer w a bound Hadm Hbound _.
    unfold defineObservablePropertyFromDescriptor.
    rewrite (bind_Ok _ _ _ _ _ (read_adm_Ok _ _ _ Hadm)).
    now rewrite (table_get_entry _ _ _ Hbound).
Qed.

End SingleBinding.

(** ** The memo tables *)

Lemma keeps_memo_bind {A B} (m : M A) (k : A -> M B) :
  keeps_memo m -> (forall a, keeps_memo (k a)) -> keeps_memo (bind m k).
Proof.
  intros Hm Hk w Hw. rewrite exec_bind. specialize (Hm w Hw). unfold exec in Hm.
  destruct (m w) as [[a|e] w']; [|exact Hm]. now apply Hk.
Qed.

Lemma keeps_memo_ret {A} (a : A) : keeps_memo (ret a).
Proof. intros w Hw. exact Hw. Qed.

Lemma keeps_memo_throw {A} e : keeps_memo (@throw A e).
Proof. intros w Hw. exact Hw. Qed.

Lemma keeps_memo_gets {A} (f : World -> A) : keeps_memo (gets f).
Proof. intros w Hw. exact Hw. Qed.

Lemma keeps_memo_modify (f : World -> World) :
  (forall w, observablePropertyConfigs (f w) = observablePropertyConfigs w) ->
  (forall w, computedPropertyConfigs (f w) = computedPropertyConfigs w) ->
  keeps_memo (modify f).
Proof. intros H1 H2 w. now apply memo_wf_same_tables. Qed.

Lemma keeps_memo_when b (m : M unit) : keeps_memo m -> keeps_memo (when b m).
Proof. intros Hm. destruct b; [exact Hm | apply keeps_memo_ret]. Qed.

Lemma keeps_memo_invariant b e : keeps_memo (invariant b e).
Proof. destruct b; [apply keeps_memo_ret | apply keeps_memo_throw]. Qed.

Lemma keeps_memo_log_event e : keeps_memo (log_event e).
Proof. now apply keeps_memo_modify. Qed.

Lemma keeps_memo_update_adm carrier f : keeps_memo (update_adm carrier f).
Proof.
  apply keeps_memo_modify; intros w; cbv zeta;
    destruct (mobx (object_at w carrier)) as [[a|v]|]; reflexivity.
Qed.

Lemma keeps_memo_read_adm carrier : keeps_memo (read_adm carrier).
Proof.
  intros w Hw. unfold exec, read_adm, read_mobx, bind, gets, ret, throw.
  now destruct (mobx (object_at w carrier)) as [[a|v]|].
Qed.

Lemma keeps_memo_intercept_phase adm change : keeps_memo (intercept_phase adm change).
Proof.
  intros w. destruct (intercept_phase_total adm change w) as (r & calls & E & _).
  unfold exec. rewrite E. now apply memo_wf_same_tables.
Qed.

Lemma keeps_memo_generateObservablePropConfig propName :
  keeps_memo (generateObservablePropConfig propName).
Proof.
  intros w Hw. destruct (generateObservablePropConfig_total propName w Hw)
    as (w' & E & _ & Hw'). unfold exec. now rewrite E.
Qed.

Lemma keeps_memo_generateComputedPropConfig propName :
  keeps_memo (generateComputedPropConfig propName).
Proof.
  intros w Hw. destruct (generateComputedPropConfig_total propName w Hw)
    as (w' & E & _ & Hw'). unfold exec. now rewrite E.
Qed.

Create HintDb memo.

#[local] Hint Resolve keeps_memo_ret keeps_memo_throw keeps_memo_gets keeps_memo_when
  keeps_memo_invariant keeps_memo_log_event keeps_memo_update_adm keeps_memo_read_adm
  keeps_memo_intercept_phase keeps_memo_generateObservablePropConfig
  keeps_memo_generateComputedPropConfig : memo.

(** One step of a proof that a computation keeps the tables: a bind, a
    case of the code, or a fact of the hint base. *)
Ltac memo_step :=
  first
    [ solve [auto with memo]
    | apply keeps_memo_bind; [|intros ?]
    | apply keeps_memo_when
    | apply keeps_memo_modify; intros; reflexivity
    | match goal with
      | |- keeps_memo (match ?x with _ => _ end) => destruct x
      | |- keeps_memo (if ?x then _ else _) => destruct x
      | |- keeps_memo (let _ := _ in _) => cbv zeta
      end ].

Section MemoTables.

Context {policy : CellPolicy}.

Lemma keeps_memo_setPropertyValue instance name newValue :
  keeps_memo (setPropertyValue instance name newValue).
Proof.
  unfold setPropertyValue, call_prepareNewValue, isSpyEnabled, spyReportStart,
    spyReportEnd, notifyListeners, setNewValue, bind_cell.
  repeat memo_step.
Qed.

Lemma keeps_memo_call_setter setter this v : keeps_memo (call_setter setter this v).
Proof.
  destruct setter; [apply keeps_memo_setPropertyValue|].
  unfold call_setter, ObservableValue_set, ComputedValue_set, setNewValue, bind_cell.
  repeat memo_step.
Qed.

Lemma keeps_memo_assign_property object prop v :
  keeps_memo (assign_property object prop v).
Proof.
  unfold assign_property.
  repeat first [apply keeps_memo_call_setter | memo_step].
Qed.

Lemma keeps_memo_Object_defineProperty object prop config :
  keeps_memo (Object_defineProperty object prop config).
Proof. unfold Object_defineProperty. repeat memo_step. Qed.

Lemma keeps_memo_notifyPropertyAddition adm object name newValue :
  keeps_memo (notifyPropertyAddition adm object name newValue).
Proof.
  unfold notifyPropertyAddition, isSpyEnabled, spyReportStart, spyReportEnd,
    notifyListeners.
  repeat memo_step.
Qed.

Lemma keeps_memo_defineObservableProperty adm propName newValue enhancer asInstanceProperty :
  keeps_memo (defineObservableProperty adm propName newValue enhancer asInstanceProperty).
Proof.
  unfold defineObservableProperty, assertPropertyConfigurable, bind_cell.
  repeat first [ apply keeps_memo_Object_defineProperty
               | apply keeps_memo_notifyPropertyAddition
               | memo_step ].
Qed.

Lemma keeps_memo_defineComputedProperty adm propName getter setter compareStructural
    asInstanceProperty :
  keeps_memo (defineComputedProperty adm propName getter setter compareStructural
                asInstanceProperty).
Proof.
  unfold defineComputedProperty, assertPropertyConfigurable, bind_cell.
  repeat first [apply keeps_memo_Object_defineProperty | memo_step].
Qed.

Lemma keeps_memo_defineComputedPropertyFromComputedValue adm propName computedValue
    asInstanceProperty :
  keeps_memo (defineComputedPropertyFromComputedValue adm propName computedValue
                asInstanceProperty).
Proof.
  unfold defineComputedPropertyFromComputedValue, bind_cell.
  repeat first [apply keeps_memo_Object_defineProperty | memo_step].
Qed.

(** The tables are well formed at the start and stay so under every
    operation of the module. *)
Lemma memo_wf_invariant :
  memo_wf initial_world
  /\ (forall instance name v, keeps_memo (setPropertyValue instance name v))
  /\ (forall adm propName descriptor enhancer,
        keeps_memo (defineObservablePropertyFromDescriptor adm propName descriptor enhancer))
  /\ (forall adm callback fireImmediately, keeps_memo (observe adm callback fireImmediately))
  /\ (forall adm handler, keeps_memo (intercept adm handler)).
Proof.
  split; [apply initial_world_memo_wf|]. split; [apply keeps_memo_setPropertyValue|].
  split; [|split].
  - intros adm propName descriptor enhancer.
    unfold defineObservablePropertyFromDescriptor.
    repeat first [ apply keeps_memo_assign_property
                 | apply keeps_memo_defineObservableProperty
                 | apply keeps_memo_defineComputedProperty
                 | apply keeps_memo_defineComputedPropertyFromComputedValue
                 | memo_step ].
  - intros adm callback fireImmediately. unfold observe. repeat memo_step.
  - intros adm handler. unfold intercept. repeat memo_step.
Qed.

End MemoTables.

(** * More of the module *)

(** ** The generators of accessor configurations *)

Lemma generateObservablePropConfig_memo propName w :
  exists found w',
    generateObservablePropConfig propName w = (Ok found, w')
    /\ match found with
       | Entry config =>
           observablePropertyConfigs w' !! propName = Some config
           /\ finds_member (observablePropertyConfigs w) propName = false
       | Member _ =>
           observablePropertyConfigs w' !! propName = None
           /\ finds_member (observablePropertyConfigs w) propName = true
       end
    /\ (forall q, q <> propName ->
          observablePropertyConfigs w' !! q = observablePropertyConfigs w !! q)
    /\ computedPropertyConfigs w' = computedPropertyConfigs w
    /\ objs w' = objs w /\ log w' = log w /\ mobxGuid w' = mobxGuid w
    /\ spyEnabled w' = spyEnabled w.
Proof.
  unfold generateObservablePropConfig, finds_member, bind, gets, table_get.
  destruct (observablePropertyConfigs w !! propName) as [c|] eqn:E.
  - exists (Entry c), w. repeat split; auto.
  - destruct (inherited propName).
    + exists (Member propName), w. repeat split; auto.
    + unfold modify, ret. eexists. eexists. split; [reflexivity|].
      cbn [observablePropertyConfigs set_observablePropertyConfigs].
      repeat split.
      * now rewrite lookup_insert_eq.
      * intros q Hq. now rewrite lookup_insert_ne.
Qed.

Lemma generateComputedPropConfig_memo propName w :
  exists found w',
    generateComputedPropConfig propName w = (Ok found, w')
    /\ match found with
       | Entry config =>
           computedPropertyConfigs w' !! propName = Some config
           /\ finds_member (computedPropertyConfigs w) propName = false
       | Member _ =>
           computedPropertyConfigs w' !! propName = None
           /\ finds_member (computedPropertyConfigs w) propName = true
       end
    /\ (forall q, q <> propName ->
          computedPropertyConfigs w' !! q = computedPropertyConfigs w !! q)
    /\ observablePropertyConfigs w' = observablePropertyConfigs w
    /\ objs w' = objs w /\ log w' = log w /\ mobxGuid w' = mobxGuid w
    /\ spyEnabled w' = spyEnabled w.
Proof.
  unfold generateComputedPropConfig, finds_member, bind, gets, table_get.
  destruct (computedPropertyConfigs w !! propName) as [c|] eqn:E.
  - exists (Entry c), w. repeat split; auto.
  - destruct (inherited propName).
    + exists (Member propName), w. repeat split; auto.
    + unfold modify, ret. eexists. eexists. split; [reflexivity|].
      cbn [computedPropertyConfigs set_computedPropertyConfigs].
      repeat split.
      * now rewrite lookup_insert_eq.
      * intros q Hq. now rewrite lookup_insert_ne.
Qed.


(** ** The installer of value cells *)

Section ValueCellInstaller.

Context {policy : CellPolicy}.

Lemma notifyPropertyAddition_events adm object name newValue w :
  notifyPropertyAddition adm object name newValue w =
    (Ok tt,
     add_events
       (addition_events (spyEnabled w) (default [] (adm_changeListeners adm))
          (if hasListeners adm || spyEnabled w
           then Some (add_change object name newValue) else None)) w).
Proof.
  unfold notifyPropertyAddition, isSpyEnabled, bind at 1, gets, addition_events.
  destruct (spyEnabled w) eqn:Hspy, (hasListeners adm) eqn:Hnotify;
    unfold when, spyReportStart, spyReportEnd, notifyListeners, log_event, bind,
      modify, ret; rewrite ?add_events_app;
    rewrite ?(hasListeners_false_nil _ Hnotify); cbn [map app orb];
    rewrite ?app_nil_r; try reflexivity.
  now rewrite add_events_nil.
Qed.

(** The installer without an accessor: it binds the cell and notifies
    the addition. *)
Lemma defineObservableProperty_plain adm propName newValue v' enhancer a w w1 :
  mobx (object_at w adm) = Some (SlotAdministration a) ->
  intercept_phase a
    {| wc_object := adm_target a; wc_name := propName; wc_type := add;
       wc_newValue := newValue |} w = (Ok (Some v'), w1) ->
  let cell := new_ObservableValue v' enhancer (adm_name a +:+ "." +:+ propName) in
  defineObservableProperty adm propName newValue enhancer false w =
    (Ok tt,
     add_events
       (addition_events (spyEnabled w) (default [] (adm_changeListeners a))
          (if hasListeners a || spyEnabled w
           then Some (add_change (adm_target a) propName (ov_value cell)) else None))
       (set_object adm
          (with_mobx
             (Some (SlotAdministration
                      (with_values (<[propName := CellObservable cell]> (adm_values a)) a)))
             (object_at w1 adm)) w1)).
Proof.
  intros Hadm Hphase cell.
  destruct (intercept_phase_inv _ _ _ _ _ Hphase) as (calls & -> & _ & _).
  unfold defineObservableProperty.
  rewrite (bind_Ok _ _ _ _ _ (read_adm_Ok _ _ _ Hadm)).
  unfold when at 1. unfold bind at 1. unfold ret at 1.
  rewrite (bind_Ok _ _ _ _ _ Hphase).
  unfold bind_cell.
  assert (Hadm1 : mobx (object_at (add_events calls w) adm) = Some (SlotAdministration a))
    by exact Hadm.
  rewrite (bind_Ok _ _ _ _ _ (update_adm_Ok _ _ _ _ Hadm1)).
  unfold when at 1. unfold bind at 1. unfold ret at 1.
  rewrite notifyPropertyAddition_events. reflexivity.
Qed.

(** The installer with an accessor, on a target whose property can be
    configured: it binds the cell, defines the property with what the
    generator returns, and notifies the addition. *)
Lemma defineObservableProperty_accessor adm propName newValue v' enhancer a w w1 :
  mobx (object_at w adm) = Some (SlotAdministration a) ->
  isPropertyConfigurable (object_at w (adm_target a)) propName = true ->
  (properties (object_at w (adm_target a)) !! propName = None ->
   extensible (object_at w (adm_target a)) = true) ->
  intercept_phase a
    {| wc_object := adm_target a; wc_name := propName; wc_type := add;
       wc_newValue := newValue |} w = (Ok (Some v'), w1) ->
  let cell := new_ObservableValue v' enhancer (adm_name a +:+ "." +:+ propName) in
  let wb := set_object adm
              (with_mobx
                 (Some (SlotAdministration
                          (with_values (<[propName := CellObservable cell]> (adm_values a)) a)))
                 (object_at w1 adm)) w1 in
  exists found wg wd,
    generateObservablePropConfig propName wb = (Ok found, wg)
    /\ objs wg = objs wb /\ log wg = log w1
    /\ Object_defineProperty (adm_target a) propName found wg = (Ok tt, wd)
    /\ properties (object_at wd (adm_target a)) !! propName
       = Some (defined_property found (properties (object_at w (adm_target a)) !! propName))
    /\ (forall l, mobx (object_at wd l) = mobx (object_at wb l))
    /\ log wd = log w1
    /\ defineObservableProperty adm propName newValue enhancer true w =
         (Ok tt,
          add_events
            (addition_events (spyEnabled w) (default [] (adm_changeListeners a))
               (if hasListeners a || spyEnabled w
                then Some (add_change (adm_target a) propName (ov_value cell)) else None))
            wd).
Proof.
  intros Hadm Hconf Hext Hphase cell wb.
  destruct (intercept_phase_inv _ _ _ _ _ Hphase) as (calls & Hw1 & _ & _).
  destruct (generateObservablePropConfig_memo propName wb)
    as (found & wg & Hgen & _ & _ & _ & Hobjs & Hlog & _ & Hspy).
  assert (Hat : forall l, object_at wg l = object_at wb l).
  { intros l. unfold object_at. now rewrite Hobjs. }
  assert (Hprops : properties (object_at wb (adm_target a))
                   = properties (object_at w (adm_target a))).
  { unfold wb. rewrite properties_after_bind.
    - subst w1. reflexivity. }
  assert (Hexts : extensible (object_at wb (adm_target a))
                  = extensible (object_at w (adm_target a))).
  { unfold wb. rewrite extensible_after_bind. subst w1. reflexivity. }
  destruct (Object_defineProperty_defined (adm_target a) propName found wg)
    as (wd & Hdef & Hprop & Hslot & Hlogd & Hspyd & _).
  { unfold isPropertyConfigurable. now rewrite Hat, Hprops. }
  { now rewrite Hat, Hprops, Hexts. }
  exists found, wg, wd. split; [exact Hgen|]. split; [exact Hobjs|].
  split; [rewrite Hlog; reflexivity|]. split; [exact Hdef|].
  split; [now rewrite Hprop, Hat, Hprops|].
  split; [intros l; now rewrite Hslot, Hat|].
  split; [rewrite Hlogd, Hlog; reflexivity|].
  unfold defineObservableProperty.
  rewrite (bind_Ok _ _ _ _ _ (read_adm_Ok _ _ _ Hadm)).
  unfold when at 1. unfold assertPropertyConfigurable.
  unfold bind at 1. unfold bind at 1. unfold gets at 1. rewrite Hconf.
  unfold invariant at 1. unfold ret at 1.
  rewrite (bind_Ok _ _ _ _ _ Hphase).
  unfold bind_cell.
  assert (Hadm1 : mobx (object_at w1 adm) = Some (SlotAdministration a))
    by (subst w1; exact Hadm).
  rewrite (bind_Ok _ _ _ _ _ (update_adm_Ok _ _ _ _ Hadm1)).
  fold cell. fold wb.
  unfold when at 1. unfold bind at 1. rewrite (bind_Ok _ _ _ _ _ Hgen).
  rewrite Hdef.
  rewrite notifyPropertyAddition_events.
  rewrite Hspyd, Hspy.
  unfold wb. cbn [spyEnabled set_object set_objs]. subst w1. reflexivity.
Qed.

(** X3.  The addition of a value cell is notified with the value the
    cell stores, which is what the constructor made of the value the
    interceptors left, and not the value the caller or the interceptors
    gave.  The world sees the start report of the trace when tracing is
    enabled, one call of every listener, the end report; the change has
    no [oldValue]. *)
Theorem addition_notification_content
    (adm : loc) (propName : string) (newValue v' : value) (enhancer : IEnhancer)
    (asInstanceProperty : bool) (a : ObservableObjectAdministration) (w w1 : World) :
  mobx (object_at w adm) = Some (SlotAdministration a) ->
  (asInstanceProperty = true ->
   isPropertyConfigurable (object_at w (adm_target a)) propName = true) ->
  (asInstanceProperty = true ->
   properties (object_at w (adm_target a)) !! propName = None ->
   extensible (object_at w (adm_target a)) = true) ->
  intercept_phase a
    {| wc_object := adm_target a; wc_name := propName; wc_type := add;
       wc_newValue := newValue |} w = (Ok (Some v'), w1) ->
  exists w' stored,
    defineObservableProperty adm propName newValue enhancer asInstanceProperty w
    = (Ok tt, w')
    /\ stored = initialValue v' enhancer (adm_name a +:+ "." +:+ propName)
    /\ stored_value w' adm propName = Some stored
    /\ log w' =
         (log w1 ++
          addition_events (spyEnabled w) (default [] (adm_changeListeners a))
            (if hasListeners a || spyEnabled w
             then Some (add_change (adm_target a) propName stored) else None))%list.
Proof.
  intros Hadm Hconf Hext Hphase.
  assert (Hadm1 : mobx (object_at w1 adm) = Some (SlotAdministration a)).
  { destruct (intercept_phase_inv _ _ _ _ _ Hphase) as (calls & -> & _ & _).
    exact Hadm. }
  destruct asInstanceProperty.
  - destruct (defineObservableProperty_accessor adm propName newValue v' enhancer a w w1
                Hadm (Hconf eq_refl) (Hext eq_refl) Hphase)
      as (found & wg & wd & Hgen & Hobjs & Hlog & _ & _ & Hslot & Hlogd & Hrun).
    eexists. eexists. split; [exact Hrun|]. split; [reflexivity|]. split.
    + unfold stored_value, cell_at. rewrite object_at_add_events, Hslot.
      rewrite object_at_set_object_eq.
      cbn [mobx with_mobx adm_values with_values]. now rewrite lookup_insert_eq.
    + cbn [log add_events]. rewrite Hlogd. reflexivity.
  - rewrite (defineObservableProperty_plain adm propName newValue v' enhancer a w w1
               Hadm Hphase).
    eexists. eexists. split; [reflexivity|]. split; [reflexivity|]. split.
    + unfold stored_value, cell_at. rewrite object_at_add_events.
      rewrite object_at_set_object_eq.
      cbn [mobx with_mobx adm_values with_values]. now rewrite lookup_insert_eq.
    + reflexivity.
Qed.

(** X5.  As instance properties, the installer of value cells and the
    installer of computed cells from a getter first check that the
    property of the target can be configured: when it cannot, they fail
    with [PropertyNotConfigurable] before anything else happens; no
    interceptor is called and the world is as it was. *)
Theorem installers_refuse_unconfigurable
    (adm : loc) (propName : string) (a : ObservableObjectAdministration) (w : World) :
  mobx (object_at w adm) = Some (SlotAdministration a) ->
  isPropertyConfigurable (object_at w (adm_target a)) propName = false ->
  (forall newValue enhancer,
     defineObservableProperty adm propName newValue enhancer true w
     = (Err PropertyNotConfigurable, w))
  /\ (forall getter setter compareStructural,
        defineComputedProperty adm propName getter setter compareStructural true w
        = (Err PropertyNotConfigurable, w)).
Proof.
  intros Hadm Hconf. split; intros.
  - unfold defineObservableProperty.
    rewrite (bind_Ok _ _ _ _ _ (read_adm_Ok _ _ _ Hadm)).
    unfold when, assertPropertyConfigurable, bind, gets. now rewrite Hconf.
  - unfold defineComputedProperty.
    rewrite (bind_Ok _ _ _ _ _ (read_adm_Ok _ _ _ Hadm)).
    unfold when, assertPropertyConfigurable, bind, gets. now rewrite Hconf.
Qed.

(** X6.  When the chain cancels the addition of a value cell, the
    installer returns at once and without an error: no cell is bound, no
    accessor is defined, the memo tables are untouched, and the world
    has seen nothing but the calls of the interceptors. *)
Theorem addition_vetoed_is_silent
    (adm : loc) (propName : string) (newValue : value) (enhancer : IEnhancer)
    (asInstanceProperty : bool) (a : ObservableObjectAdministration) (w w1 : World) :
  mobx (object_at w adm) = Some (SlotAdministration a) ->
  (asInstanceProperty = true ->
   isPropertyConfigurable (object_at w (adm_target a)) propName = true) ->
  hasInterceptors a = true ->
  interceptChange a
    {| wc_object := adm_target a; wc_name := propName; wc_type := add;
       wc_newValue := newValue |} w = (Ok None, w1) ->
  defineObservableProperty adm propName newValue enhancer asInstanceProperty w
  = (Ok tt, w1)
  /\ objs w1 = objs w
  /\ cell_at w1 adm propName = cell_at w adm propName
  /\ observablePropertyConfigs w1 = observablePropertyConfigs w
  /\ exists calls, log w1 = (log w ++ calls)%list /\ Forall is_intercept calls.
Proof.
  intros Hadm Hconf Hhas Hveto.
  assert (Hphase : intercept_phase a
            {| wc_object := adm_target a; wc_name := propName; wc_type := add;
               wc_newValue := newValue |} w = (Ok None, w1)).
  { unfold intercept_phase. rewrite Hhas. now rewrite (bind_Ok _ _ _ _ _ Hveto). }
  destruct (intercept_phase_inv _ _ _ _ _ Hphase) as (calls & -> & Hc & _).
  split; [|split; [reflexivity|split; [reflexivity|split; [reflexivity|]]]].
  - unfold defineObservableProperty.
    rewrite (bind_Ok _ _ _ _ _ (read_adm_Ok _ _ _ Hadm)).
    assert (Hassert :
              when asInstanceProperty
                (assertPropertyConfigurable (adm_target a) propName) w = (Ok tt, w)).
    { destruct asInstanceProperty; [|reflexivity].
      unfold when, assertPropertyConfigurable, bind, gets.
      now rewrite (Hconf eq_refl). }
    rewrite (bind_Ok _ _ _ _ _ Hassert).
    now rewrite (bind_Ok _ _ _ _ _ Hphase).
  - exists calls. split; [reflexivity | exact Hc].
Qed.

(** X7.  The installers do not check that the target is extensible.  On
    a target that is not extensible and has no property of the name, the
    installer of value cells passes the check of the property, runs the
    interceptors and binds the cell, and only then fails with the
    [TypeError] of [Object.defineProperty]: the cell stays bound, no
    accessor is defined and the addition is not notified. *)
Theorem value_cell_on_sealed_target
    (adm : loc) (propName : string) (newValue v' : value) (enhancer : IEnhancer)
    (a : ObservableObjectAdministration) (w w1 : World) :
  mobx (object_at w adm) = Some (SlotAdministration a) ->
  properties (object_at w (adm_target a)) !! propName = None ->
  extensible (object_at w (adm_target a)) = false ->
  intercept_phase a
    {| wc_object := adm_target a; wc_name := propName; wc_type := add;
       wc_newValue := newValue |} w = (Ok (Some v'), w1) ->
  exists w',
    defineObservableProperty adm propName newValue enhancer true w
    = (Err TypeError, w')
    /\ cell_at w' adm propName =
          Some (CellObservable
                  (new_ObservableValue v' enhancer (adm_name a +:+ "." +:+ propName)))
    /\ properties (object_at w' (adm_target a)) !! propName = None
    /\ log w' = log w1.
Proof.
  intros Hadm Habsent Hsealed Hphase.
  destruct (intercept_phase_inv _ _ _ _ _ Hphase) as (calls & Hw1 & _ & _).
  assert (Hadm1 : mobx (object_at w1 adm) = Some (SlotAdministration a))
    by (subst w1; exact Hadm).
  set (wb := set_object adm
               (with_mobx
                  (Some (SlotAdministration
                           (with_values
                              (<[propName := CellObservable
                                   (new_ObservableValue v' enhancer
                                      (adm_name a +:+ "." +:+ propName))]>
                                 (adm_values a)) a)))
                  (object_at w1 adm)) w1).
  destruct (generateObservablePropConfig_memo propName wb)
    as (config & wg & Hgen & _ & _ & _ & Hobjs & Hlog & _ & _).
  assert (Hat : forall l, object_at wg l = object_at wb l).
  { intros l. unfold object_at. now rewrite Hobjs. }
  assert (Hprops : properties (object_at wb (adm_target a))
                   = properties (object_at w (adm_target a))).
  { unfold wb. rewrite properties_after_bind. subst w1. reflexivity. }
  assert (Hexts : extensible (object_at wb (adm_target a))
                  = extensible (object_at w (adm_target a))).
  { unfold wb. rewrite extensible_after_bind. subst w1. reflexivity. }
  exists wg. split; [|split; [|split]].
  - unfold defineObservableProperty.
    rewrite (bind_Ok _ _ _ _ _ (read_adm_Ok _ _ _ Hadm)).
    unfold when at 1. unfold assertPropertyConfigurable.
    unfold bind at 1. unfold bind at 1. unfold gets at 1.
    unfold isPropertyConfigurable. rewrite Habsent.
    unfold invariant at 1. unfold ret at 1.
    rewrite (bind_Ok _ _ _ _ _ Hphase).
    unfold bind_cell.
    rewrite (bind_Ok _ _ _ _ _ (update_adm_Ok _ _ _ _ Hadm1)). fold wb.
    unfold when at 1. unfold bind at 1. rewrite (bind_Ok _ _ _ _ _ Hgen).
    unfold Object_defineProperty, bind, gets.
    rewrite Hat, Hprops, Hexts, Habsent, Hsealed. now destruct config.
  - unfold cell_at. rewrite Hat. unfold wb. rewrite object_at_set_object_eq.
    cbn [mobx with_mobx adm_values with_values]. now rewrite lookup_insert_eq.
  - now rewrite Hat, Hprops.
  - rewrite Hlog. reflexivity.
Qed.

End ValueCellInstaller.

(** ** The installers of computed cells *)

Lemma keeps_log_bind {A B} (m : M A) (k : A -> M B) :
  keeps_log m -> (forall a, keeps_log (k a)) -> keeps_log (bind m k).
Proof.
  intros Hm Hk w. rewrite exec_bind. specialize (Hm w). unfold exec in Hm.
  destruct (m w) as [[a|e] w']; [|exact Hm]. now rewrite Hk.
Qed.

Lemma keeps_log_ret {A} (a : A) : keeps_log (ret a).
Proof. intros w. reflexivity. Qed.

Lemma keeps_log_throw {A} e : keeps_log (@throw A e).
Proof. intros w. reflexivity. Qed.

Lemma keeps_log_gets {A} (f : World -> A) : keeps_log (gets f).
Proof. intros w. reflexivity. Qed.

Lemma keeps_log_when b (m : M unit) : keeps_log m -> keeps_log (when b m).
Proof. intros Hm. destruct b; [exact Hm | apply keeps_log_ret]. Qed.

Lemma keeps_log_read_adm carrier : keeps_log (read_adm carrier).
Proof.
  intros w. unfold exec, read_adm, read_mobx, bind, gets, ret, throw.
  now destruct (mobx (object_at w carrier)) as [[a|v]|].
Qed.

Lemma keeps_log_update_adm carrier f : keeps_log (update_adm carrier f).
Proof.
  intros w. unfold exec, update_adm, modify. cbv zeta.
  now destruct (mobx (object_at w carrier)) as [[a|v]|].
Qed.

Lemma keeps_log_assertPropertyConfigurable object prop :
  keeps_log (assertPropertyConfigurable object prop).
Proof.
  intros w. unfold exec, assertPropertyConfigurable, bind, gets, invariant, ret, throw.
  now destruct (isPropertyConfigurable (object_at w object) prop).
Qed.

Lemma keeps_log_generateComputedPropConfig propName :
  keeps_log (generateComputedPropConfig propName).
Proof.
  intros w. destruct (generateComputedPropConfig_memo propName w)
    as (config & w' & E & _ & _ & _ & _ & Hlog & _).
  unfold exec. now rewrite E.
Qed.

Lemma keeps_log_Object_defineProperty object prop config :
  keeps_log (Object_defineProperty object prop config).
Proof.
  intros w. unfold exec, Object_defineProperty, bind, gets. destruct config as [config|name].
  - now destruct (match properties (object_at w object) !! prop with
                  | Some p => property_configurable p
                  | None => extensible (object_at w object)
                  end).
  - destruct (properties (object_at w object) !! prop); [reflexivity|].
    now destruct (extensible (object_at w object)).
Qed.

(** X8.  The installation of a computed cell, by either installer, is
    neither intercepted nor notified: whatever interceptors and listeners
    the record has and whether tracing is enabled or not, and whether
    the call returns or throws, the world sees no event of it. *)
Theorem computed_installation_is_silent
    (adm : loc) (propName : string) (source : ComputedSource)
    (asInstanceProperty : bool) (w : World) :
  log (exec (installComputedCell adm propName source asInstanceProperty) w) = log w.
Proof.
  revert w. change (keeps_log (installComputedCell adm propName source asInstanceProperty)).
  destruct source as [getter setter compareStructural|computedValue]; cbn [installComputedCell].
  - unfold defineComputedProperty, bind_cell.
    apply keeps_log_bind; [apply keeps_log_read_adm|intros a].
    apply keeps_log_bind;
      [apply keeps_log_when, keeps_log_assertPropertyConfigurable|intros _].
    apply keeps_log_bind; [apply keeps_log_update_adm|intros _].
    apply keeps_log_when.
    apply keeps_log_bind; [apply keeps_log_generateComputedPropConfig|intros config].
    apply keeps_log_Object_defineProperty.
  - unfold defineComputedPropertyFromComputedValue, bind_cell.
    apply keeps_log_bind; [apply keeps_log_read_adm|intros a]. cbv zeta.
    apply keeps_log_bind; [apply keeps_log_update_adm|intros _].
    apply keeps_log_when.
    apply keeps_log_bind; [apply keeps_log_generateComputedPropConfig|intros config].
    apply keeps_log_Object_defineProperty.
Qed.

(** X9.  The installer of a computed cell from a computed value makes no
    check of the property of the target.  On a property that cannot be
    configured it first binds the cell, renamed after the record and the
    property, and then hands what the generator returns to
    [Object.defineProperty].  A generated configuration is refused with
    the [TypeError] of the host.  For a name the memo table inherits from
    [Object.prototype] the generator returns the inherited member, which
    the host reads as a descriptor without fields and accepts, and the
    call returns.  Either way the cell stays bound and the property of
    the target is as it was. *)
Theorem computed_value_on_unconfigurable
    (adm : loc) (propName : string) (computedValue : ComputedValue)
    (a : ObservableObjectAdministration) (w : World) :
  mobx (object_at w adm) = Some (SlotAdministration a) ->
  isPropertyConfigurable (object_at w (adm_target a)) propName = false ->
  exists w' c,
    defineComputedPropertyFromComputedValue adm propName computedValue true w
    = (if finds_member (computedPropertyConfigs w) propName then Ok tt else Err TypeError,
       w')
    /\ cell_at w' adm propName = Some (CellComputed c)
    /\ cv_name c = adm_name a +:+ "." +:+ propName
    /\ properties (object_at w' (adm_target a)) = properties (object_at w (adm_target a))
    /\ log w' = log w.
Proof.
  intros Hadm Hconf.
  unfold defineComputedPropertyFromComputedValue.
  rewrite (bind_Ok _ _ _ _ _ (read_adm_Ok _ _ _ Hadm)). cbv zeta.
  unfold bind_cell. rewrite (bind_Ok _ _ _ _ _ (update_adm_Ok _ _ _ _ Hadm)).
  match goal with
  | |- context [set_object adm ?o w] => set (wb := set_object adm o w)
  end.
  destruct (generateComputedPropConfig_memo propName wb)
    as (found & wg & Hgen & Hfound & _ & _ & Hobjs & Hlog & _ & _).
  change (computedPropertyConfigs wb) with (computedPropertyConfigs w) in Hfound.
  assert (Hat : forall l, object_at wg l = object_at wb l).
  { intros l. unfold object_at. now rewrite Hobjs. }
  assert (Hprops : properties (object_at wb (adm_target a))
                   = properties (object_at w (adm_target a))).
  { unfold wb. now rewrite properties_after_bind. }
  unfold when. rewrite (bind_Ok _ _ _ _ _ Hgen).
  unfold Object_defineProperty, bind, gets. rewrite Hat, Hprops.
  unfold isPropertyConfigurable in Hconf.
  destruct (properties (object_at w (adm_target a)) !! propName) as [p|];
    [|discriminate].
  destruct found as [config|name]; destruct Hfound as (_ & ->).
  - rewrite Hconf. eexists. eexists. split; [reflexivity|]. split; [|split; [|split]].
    + unfold cell_at. rewrite Hat. unfold wb. rewrite object_at_set_object_eq.
      cbn [mobx with_mobx adm_values with_values]. now rewrite lookup_insert_eq.
    + reflexivity.
    + now rewrite Hat, Hprops.
    + now rewrite Hlog.
  - eexists. eexists. split; [reflexivity|]. split; [|split; [|split]].
    + unfold cell_at. rewrite Hat. unfold wb. rewrite object_at_set_object_eq.
      cbn [mobx with_mobx adm_values with_values]. now rewrite lookup_insert_eq.
    + reflexivity.
    + now rewrite Hat, Hprops.
    + now rewrite Hlog.
Qed.

(** ** The router, case by case *)

Lemma set_object_add_events l o es w :
  set_object l o (add_events es w) = add_events es (set_object l o w).
Proof. reflexivity. Qed.

Section RouterCases.

Context {policy : CellPolicy}.

(** Every run of the router is one of six: the instance carries no
    administration; the chain cancels; the name holds no value cell; the
    cell refuses the value; the cell answers [UNCHANGED]; the cell
    commits. *)
Lemma setPropertyValue_cases instance name newValue w :
  (administration_at w instance = None
   /\ setPropertyValue instance name newValue w = (Err TypeError, w))
  \/ exists adm r calls,
       mobx (object_at w instance) = Some (SlotAdministration adm)
       /\ intercept_phase adm
            {| wc_type := update; wc_object := instance; wc_name := name;
               wc_newValue := newValue |} w = (Ok r, add_events calls w)
       /\ Forall is_intercept calls
       /\ match r with
          | None => setPropertyValue instance name newValue w = (Ok tt, add_events calls w)
          | Some v' =>
              match adm_values adm !! name with
              | Some (CellObservable o) =>
                  match prepareNewValue o v' with
                  | Thrown e =>
                      setPropertyValue instance name newValue w
                      = (Err e, add_events calls w)
                  | UNCHANGED =>
                      setPropertyValue instance name newValue w
                      = (Ok tt, add_events calls w)
                  | NewValue v'' =>
                      setPropertyValue instance name newValue w
                      = (Ok tt,
                         add_events
                           (calls ++
                            commit_events (spyEnabled w)
                              (default [] (adm_changeListeners adm)) (ov_name o) v''
                              (if hasListeners adm || spyEnabled w
                               then Some (update_change instance name (ov_value o) v'')
                               else None))
                           (set_object instance
                              (with_mobx
                                 (Some (SlotAdministration
                                          (with_values
                                             (<[name := committed o v'']> (adm_values adm))
                                             adm)))
                                 (object_at w instance)) w))
                  end
              | _ =>
                  setPropertyValue instance name newValue w
                  = (Err TypeError, add_events calls w)
              end
          end.
Proof.
  destruct (mobx (object_at w instance)) as [[adm|x]|] eqn:Hadm.
  2,3: left; split; [unfold administration_at; now rewrite Hadm|];
       unfold setPropertyValue, read_adm, read_mobx, bind, gets; now rewrite Hadm.
  right.
  destruct (intercept_phase_total adm
              {| wc_type := update; wc_object := instance; wc_name := name;
                 wc_newValue := newValue |} w) as (r & calls & Hphase & Hc).
  exists adm, r, calls. split; [reflexivity|]. split; [exact Hphase|].
  split; [exact Hc|].
  unfold setPropertyValue.
  rewrite (bind_Ok _ _ _ _ _ (read_adm_Ok _ _ _ Hadm)).
  rewrite (bind_Ok _ _ _ _ _ Hphase).
  destruct r as [v'|]; [|reflexivity].
  unfold call_prepareNewValue.
  destruct (adm_values adm !! name) as [[o|c]|] eqn:Hcell; try reflexivity.
  unfold bind at 1. unfold ret at 1. cbv beta iota.
  destruct (prepareNewValue o v') as [|v''|e]; [reflexivity| |reflexivity].
  assert (Hadm1 : mobx (object_at (add_events calls w) instance)
                  = Some (SlotAdministration adm)) by exact Hadm.
  unfold commit_events, committed.
  unfold isSpyEnabled, when, setNewValue, bind_cell, update_adm, spyReportStart,
    spyReportEnd, notifyListeners, log_event, bind, modify, ret, gets.
  cbv beta iota zeta.
  change (spyEnabled (add_events calls w)) with (spyEnabled w).
  destruct (spyEnabled w) eqn:Hspy, (hasListeners adm) eqn:Hnotify; cbv beta iota.
  all: rewrite ?object_at_add_events, ?Hadm1, ?Hadm.
  all: rewrite ?set_object_add_events, ?add_events_app.
  all: rewrite ?(hasListeners_false_nil _ Hnotify); cbn [map app orb].
  all: rewrite <- ?app_assoc; cbn [app]; rewrite ?app_nil_r; reflexivity.
Qed.

(** X13.  A write through the router to a name that holds no value cell
    never commits.  When the instance carries no administration the call
    fails at once with the [TypeError] of the host and the world is as it
    was.  Otherwise, the name being free or bound to a computed cell, the
    interception phase runs first: the call returns when the chain
    cancels, and fails with the [TypeError] of the host when it does not.
    No object has changed, and the world has seen nothing but the calls
    of the interceptors. *)
Theorem setPropertyValue_failure
    (instance : loc) (name : string) (newValue : value) (w : World) :
  stored_value w instance name = None ->
  match administration_at w instance with
  | None => setPropertyValue instance name newValue w = (Err TypeError, w)
  | Some adm =>
      exists intercepted w1,
        intercept_phase adm
          {| wc_type := update; wc_object := instance; wc_name := name;
             wc_newValue := newValue |} w = (Ok intercepted, w1)
        /\ setPropertyValue instance name newValue w =
             (match intercepted with
              | Some _ => Err TypeError
              | None => Ok tt
              end, w1)
        /\ objs w1 = objs w
        /\ exists calls, log w1 = (log w ++ calls)%list /\ Forall is_intercept calls
  end.
Proof.
  intros Hnone.
  destruct (setPropertyValue_cases instance name newValue w)
    as [[Hadm Hcase]|(adm & r & calls & Hadm & Hphase & Hc & Hcase)].
  - now rewrite Hadm.
  - unfold administration_at. rewrite Hadm.
    exists r, (add_events calls w). split; [exact Hphase|].
    split; [|split; [reflexivity | exists calls; split; [reflexivity | exact Hc]]].
    destruct r as [v'|]; [|exact Hcase].
    unfold stored_value, cell_at in Hnone. rewrite Hadm in Hnone.
    destruct (adm_values adm !! name) as [[o|c]|]; [discriminate | exact Hcase..].
Qed.

End RouterCases.

(** ** The accessor of a value cell *)

Section ValueAccessor.

Context {policy : CellPolicy} {evaluation : ComputedEvaluation}.

(** What the installer of value cells leaves on an owner that carries
    its own administration, when the tables are well formed. *)
Lemma defineObservableProperty_installed adm propName newValue v' enhancer a w w1 :
  mobx (object_at w adm) = Some (SlotAdministration a) ->
  adm_target a = adm ->
  memo_wf w ->
  inherited propName = false ->
  isPropertyConfigurable (object_at w adm) propName = true ->
  (properties (object_at w adm) !! propName = None ->
   extensible (object_at w adm) = true) ->
  intercept_phase a
    {| wc_object := adm_target a; wc_name := propName; wc_type := add;
       wc_newValue := newValue |} w = (Ok (Some v'), w1) ->
  exists w',
    defineObservableProperty adm propName newValue enhancer true w = (Ok tt, w')
    /\ properties (object_at w' adm) !! propName
       = Some (AccessorProperty (observable_config propName))
    /\ mobx (object_at w' adm)
       = Some (SlotAdministration
                 (with_values
                    (<[propName := CellObservable
                         (new_ObservableValue v' enhancer
                            (adm_name a +:+ "." +:+ propName))]> (adm_values a)) a)).
Proof.
  intros Hadm Htarget Hmemo Hname Hconf Hext Hphase.
  rewrite <- Htarget in Hconf, Hext.
  destruct (defineObservableProperty_accessor adm propName newValue v' enhancer a w w1
              Hadm Hconf Hext Hphase)
    as (found & wg & wd & Hgen & Hobjs & _ & _ & Hprop & Hslot & _ & Hrun).
  match type of Hgen with
  | generateObservablePropConfig _ ?wb = _ =>
      assert (Hmemo_b : memo_wf wb)
  end.
  { destruct (intercept_phase_inv _ _ _ _ _ Hphase) as (calls & -> & _ & _).
    revert Hmemo. now apply memo_wf_same_tables. }
  destruct (generateObservablePropConfig_total propName _ Hmemo_b)
    as (wg' & Hgen' & _ & _).
  rewrite Hgen in Hgen'. inversion Hgen'; subst found wg'.
  unfold generated in Hprop. rewrite (finds_member_not_inherited _ _ Hname) in Hprop.
  rewrite Htarget in Hprop.
  eexists. split; [exact Hrun|]. split.
  - now rewrite object_at_add_events.
  - rewrite object_at_add_events, Hslot. now rewrite object_at_set_object_eq.
Qed.

(** X11.  After a value cell was installed as an instance property,
    under a name that is no member of [Object.prototype] and on an owner
    that carries its own administration, every assignment to the
    property is a call of the router, and so is a further declaration of
    the name with a plain value: declaring a field again writes it. *)
Theorem assignment_goes_through_router
    (adm : loc) (propName : string) (newValue v' : value) (enhancer : IEnhancer)
    (a : ObservableObjectAdministration) (w w1 : World) :
  mobx (object_at w adm) = Some (SlotAdministration a) ->
  adm_target a = adm ->
  memo_wf w ->
  inherited propName = false ->
  isPropertyConfigurable (object_at w adm) propName = true ->
  (properties (object_at w adm) !! propName = None ->
   extensible (object_at w adm) = true) ->
  intercept_phase a
    {| wc_object := adm_target a; wc_name := propName; wc_type := add;
       wc_newValue := newValue |} w = (Ok (Some v'), w1) ->
  exists w',
    defineObservableProperty adm propName newValue enhancer true w = (Ok tt, w')
    /\ (forall v, assign_property adm propName v w' = setPropertyValue adm propName v w')
    /\ (forall v defaultEnhancer,
          plain_value v = true ->
          defineObservablePropertyFromDescriptor adm propName (ValueDescriptor v)
            defaultEnhancer w'
          = setPropertyValue adm propName v w').
Proof.
  intros Hadm Htarget Hmemo Hname Hconf Hext Hphase.
  destruct (defineObservableProperty_installed adm propName newValue v' enhancer a w w1
              Hadm Htarget Hmemo Hname Hconf Hext Hphase) as (w' & Hrun & Hprop & Hslot).
  exists w'. split; [exact Hrun|].
  assert (Hassign : forall v,
            assign_property adm propName v w' = setPropertyValue adm propName v w').
  { intros v. unfold assign_property, bind at 1, gets at 1. now rewrite Hprop. }
  split; [exact Hassign|].
  intros v defaultEnhancer _. unfold defineObservablePropertyFromDescriptor.
  rewrite (bind_Ok _ _ _ _ _ (read_adm_Ok _ _ _ Hslot)).
  cbn [adm_values with_values adm_target].
  rewrite (table_get_entry _ _ _ (lookup_insert_eq _ _ _)).
  cbn [has_value descriptor_value invariant]. unfold bind at 1, ret at 1.
  rewrite Htarget. apply Hassign.
Qed.

(** X12.  A property that is the accessor of a value cell reads what the
    cell stores.  After a write through the router it reads the value
    the cell held when the chain cancelled the write, or the cell refused
    the value the chain left or judged it unchanged, and the value the
    cell prepared from the value the chain left when the write was
    committed. *)
Theorem read_after_write
    (instance : loc) (name : string) (config : PropertyConfig)
    (o : ObservableValue) (adm : ObservableObjectAdministration) (w : World) :
  properties (object_at w instance) !! name = Some (AccessorProperty config) ->
  get config = GetCell name ->
  mobx (object_at w instance) = Some (SlotAdministration adm) ->
  adm_values adm !! name = Some (CellObservable o) ->
  get_property instance name w = (Ok (ov_value o), w)
  /\ forall newValue intercepted w1,
       intercept_phase adm
         {| wc_type := update; wc_object := instance; wc_name := name;
            wc_newValue := newValue |} w = (Ok intercepted, w1) ->
       let w' := exec (setPropertyValue instance name newValue) w in
       let read :=
         match intercepted with
         | None => ov_value o
         | Some v' =>
             match prepareNewValue o v' with
             | UNCHANGED | Thrown _ => ov_value o
             | NewValue v'' => v''
             end
         end in
       get_property instance name w' = (Ok read, w')
       /\ stored_value w' instance name = Some read.
Proof.
  intros Hprop Hget Hadm Hcell.
  assert (Hread : forall w0 o0,
            properties (object_at w0 instance) !! name = Some (AccessorProperty config) ->
            cell_at w0 instance name = Some (CellObservable o0) ->
            get_property instance name w0 = (Ok (ov_value o0), w0)).
  { intros w0 o0 Hp Hc. unfold get_property, bind at 1, gets at 1.
    rewrite Hp, Hget. unfold call_getter. unfold cell_at in Hc.
    destruct (mobx (object_at w0 instance)) as [[a0|x]|] eqn:Hslot; try discriminate.
    rewrite (bind_Ok _ _ _ _ _ (read_adm_Ok _ _ _ Hslot)). now rewrite Hc. }
  split; [apply Hread; [exact Hprop | unfold cell_at; now rewrite Hadm]|].
  intros newValue intercepted w1 Hphase w'. subst w'. unfold exec.
  destruct (setPropertyValue_cases instance name newValue w)
    as [[Hnone Hcase]|(adm' & r & calls & Hadm' & Hphase' & _ & Hcase)].
  { unfold administration_at in Hnone. now rewrite Hadm in Hnone. }
  rewrite Hadm in Hadm'. inversion Hadm'; subst adm'.
  rewrite Hphase in Hphase'. inversion Hphase'; subst r w1.
  assert (Hkeep : forall es,
            get_property instance name (add_events es w)
            = (Ok (ov_value o), add_events es w)
            /\ stored_value (add_events es w) instance name = Some (ov_value o)).
  { intros es. split.
    - apply Hread; [exact Hprop|]. unfold cell_at. rewrite object_at_add_events.
      now rewrite Hadm.
    - unfold stored_value, cell_at. rewrite object_at_add_events, Hadm.
      now rewrite Hcell. }
  destruct intercepted as [v'|].
  2:{ rewrite Hcase. cbn [snd]. apply Hkeep. }
  rewrite Hcell in Hcase. cbv zeta.
  destruct (prepareNewValue o v') as [|v''|e] eqn:Hprep.
  - rewrite Hcase. cbn [snd]. apply Hkeep.
  - rewrite Hcase. cbn [snd].
    match goal with
    | |- get_property _ _ ?w0 = _ /\ _ =>
        assert (Hc' : cell_at w0 instance name = Some (committed o v''))
    end.
    { unfold cell_at. rewrite object_at_add_events, object_at_set_object_eq.
      cbn [mobx with_mobx adm_values with_values]. now rewrite lookup_insert_eq. }
    split.
    + apply (Hread _ {| ov_value := v''; ov_enhancer := ov_enhancer o;
                        ov_name := ov_name o |}); [|exact Hc'].
      rewrite object_at_add_events, object_at_set_object_eq. exact Hprop.
    + unfold stored_value. now rewrite Hc'.
  - rewrite Hcase. cbn [snd]. apply Hkeep.
Qed.

End ValueAccessor.

(** ** The entry point, once more *)

Section EntryPoint.

Context {initializers : LazyInitializers}.

Lemma isObservableObject_true_inv target w w1 :
  isObservableObject (VObject target) w = (Ok true, w1) ->
  exists adm, mobx (object_at w1 target) = Some (SlotAdministration adm).
Proof.
  unfold isObservableObject. cbn [isObject]. unfold bind at 1.
  destruct (runLazyInitializers (VObject target) w) as [[[]|e] wi]; [|discriminate].
  unfold read_mobx, bind, gets, ret. intros E. inversion E; subst.
  destruct (mobx (object_at w1 target)) as [[adm|x]|]; try discriminate. eauto.
Qed.

(** X15.  On a target that carries no administration, the entry point
    fails with [NotExtensible] when the target is not extensible, and then
    nothing is attached and no id is used.  Otherwise it attaches an
    administration that is fresh, with no cell, no listener and no
    interceptor, and whose target is the target.  It uses one id when it
    derives the name and none when it takes the name the caller gave;
    it changes no other field of the target, no other object, neither
    the log nor the memo tables. *)
Theorem asObservableObject_effect
    (target : loc) (name : option string) (w w1 : World) :
  isObservableObject (VObject target) w = (Ok false, w1) ->
  if extensible (object_at w1 target)
  then exists w2 given,
         asObservableObject target name w = (Ok target, w2)
         /\ object_at w2 target
            = with_mobx
                (Some (SlotAdministration
                         (new_ObservableObjectAdministration target given)))
                (object_at w1 target)
         /\ (forall l, l <> target -> object_at w2 l = object_at w1 l)
         /\ mobxGuid w2
            = (if isPlainObject (object_at w1 target) && negb (no_name name)
               then mobxGuid w1 else mobxGuid w1 + 1)%N
         /\ log w2 = log w1
         /\ observablePropertyConfigs w2 = observablePropertyConfigs w1
         /\ computedPropertyConfigs w2 = computedPropertyConfigs w1
  else asObservableObject target name w = (Err NotExtensible, w1).
Proof.
  intros Hobs.
  destruct (extensible (object_at w1 target)) eqn:Hext.
  2:{ unfold asObservableObject. rewrite (bind_Ok _ _ _ _ _ Hobs). cbn iota.
      unfold bind at 1. unfold gets at 1. now rewrite Hext. }
  unfold asObservableObject.
  rewrite (bind_Ok _ _ _ _ _ Hobs). cbn iota.
  unfold bind at 1. unfold gets at 1. rewrite Hext.
  unfold invariant. unfold bind at 1. unfold ret at 1.
  unfold isPlainObject, constructor_name_or_default, constructor_name.
  destruct (prototype (object_at w1 target)) as [| |typeName] eqn:Hproto;
    cbn [negb andb].
  1,2: unfold bind at 1; unfold ret at 1;
       destruct name as [[|c given]|]; cbn [no_name default negb];
       unfold getNextId, bind, gets, modify, ret, addHiddenFinalProp_mobx;
       eexists; eexists; (split; [reflexivity|]);
       (split; [now rewrite object_at_set_object_eq|]);
       (split; [intros l Hl; now rewrite object_at_set_object_ne by congruence|]);
       repeat split.
  unfold bind at 1. unfold getNextId at 1. unfold bind at 1. unfold gets at 1.
  unfold bind at 1. unfold modify at 1. unfold ret at 1. unfold ret at 1.
  destruct typeName as [|c typeName]; cbn [no_name append default];
    unfold bind, ret, addHiddenFinalProp_mobx, modify;
    eexists; eexists; (split; [reflexivity|]);
    (split; [now rewrite object_at_set_object_eq|]);
    (split; [intros l Hl; now rewrite object_at_set_object_ne by congruence|]);
    repeat split.
Qed.

Lemma asObservableObject_attached target name r w w2 :
  asObservableObject target name w = (Ok r, w2) ->
  r = target
  /\ exists adm, mobx (object_at w2 target) = Some (SlotAdministration adm).
Proof.
  intros Hrun.
  destruct (isObservableObject (VObject target) w) as [[[|]|e] w1] eqn:Hobs.
  - unfold asObservableObject in Hrun. rewrite (bind_Ok _ _ _ _ _ Hobs) in Hrun.
    inversion Hrun; subst. split; [reflexivity|].
    exact (isObservableObject_true_inv _ _ _ Hobs).
  - pose proof (asObservableObject_effect target name w w1 Hobs) as Heffect.
    destruct (extensible (object_at w1 target)).
    + destruct Heffect as (w2' & given & Hrun' & Hat & _).
      rewrite Hrun in Hrun'. inversion Hrun'; subst. split; [reflexivity|].
      rewrite Hat. eauto.
    + rewrite Hrun in Heffect. discriminate.
  - unfold asObservableObject, bind in Hrun. rewrite Hobs in Hrun. discriminate.
Qed.

(** X16.  The entry point is idempotent.  Once it has returned for a
    target, the target is an observable object, and, the lazy
    initializers having nothing left to do, every further call returns
    the same administration and changes nothing, whatever name it is
    given: the name of the record is the one of the first call. *)
Theorem asObservableObject_idempotent
    (target : loc) (name name' : option string) (r : loc) (w w2 : World) :
  asObservableObject target name w = (Ok r, w2) ->
  runLazyInitializers (VObject target) w2 = (Ok tt, w2) ->
  r = target
  /\ isObservableObject (VObject target) w2 = (Ok true, w2)
  /\ asObservableObject target name' w2 = (Ok target, w2).
Proof.
  intros Hrun Hinit.
  destruct (asObservableObject_attached _ _ _ _ _ Hrun) as (-> & adm & Hadm).
  assert (Hobs : isObservableObject (VObject target) w2 = (Ok true, w2)).
  { unfold isObservableObject. cbn [isObject].
    rewrite (bind_Ok _ _ _ _ _ Hinit).
    unfold read_mobx, bind, gets, ret. now rewrite Hadm. }
  split; [reflexivity|]. split; [exact Hobs|].
  unfold asObservableObject. now rewrite (bind_Ok _ _ _ _ _ Hobs).
Qed.

End EntryPoint.

(** ** Declarations of free names *)

Section Declarations.

Context {policy : CellPolicy}.

(** Defining the accessor of a name leaves every [$mobx] field, whether
    it returns or throws. *)
Lemma observable_accessor_keeps_mobx target propName wb r w1 :
  (let! config := generateObservablePropConfig propName in
   Object_defineProperty target propName config) wb = (r, w1) ->
  forall l, mobx (object_at w1 l) = mobx (object_at wb l).
Proof.
  destruct (generateObservablePropConfig_memo propName wb)
    as (config & wg & Hgen & _ & _ & _ & Hobjs & _).
  rewrite (bind_Ok _ _ _ _ _ Hgen).
  assert (Hat : forall l, object_at wg l = object_at wb l).
  { intros l. unfold object_at. now rewrite Hobjs. }
  intros Hdef l. rewrite (Object_defineProperty_mobx _ _ _ _ _ _ Hdef). now rewrite Hat.
Qed.

Lemma computed_accessor_keeps_mobx target propName wb r w1 :
  (let! config := generateComputedPropConfig propName in
   Object_defineProperty target propName config) wb = (r, w1) ->
  forall l, mobx (object_at w1 l) = mobx (object_at wb l).
Proof.
  destruct (generateComputedPropConfig_memo propName wb)
    as (config & wg & Hgen & _ & _ & _ & Hobjs & _).
  rewrite (bind_Ok _ _ _ _ _ Hgen).
  assert (Hat : forall l, object_at wg l = object_at wb l).
  { intros l. unfold object_at. now rewrite Hobjs. }
  intros Hdef l. rewrite (Object_defineProperty_mobx _ _ _ _ _ _ Hdef). now rewrite Hat.
Qed.

(** A successful installation of a value cell as an instance property
    was cancelled by the chain, and bound nothing, or bound a fresh cell
    with the enhancer it was given. *)
Lemma defineObservableProperty_Ok_inv adm propName newValue enhancer a w w' :
  mobx (object_at w adm) = Some (SlotAdministration a) ->
  defineObservableProperty adm propName newValue enhancer true w = (Ok tt, w') ->
  (hasInterceptors a = true /\ cell_at w' adm propName = cell_at w adm propName)
  \/ exists v',
       cell_at w' adm propName
       = Some (CellObservable
                 (new_ObservableValue v' enhancer (adm_name a +:+ "." +:+ propName))).
Proof.
  intros Hadm. unfold defineObservableProperty.
  rewrite (bind_Ok _ _ _ _ _ (read_adm_Ok _ _ _ Hadm)).
  unfold when at 1. unfold assertPropertyConfigurable.
  unfold bind at 1. unfold bind at 1. unfold gets at 1.
  destruct (isPropertyConfigurable (object_at w (adm_target a)) propName);
    [|discriminate].
  unfold invariant at 1. unfold ret at 1.
  destruct (intercept_phase_total a
              {| wc_object := adm_target a; wc_name := propName; wc_type := add;
                 wc_newValue := newValue |} w) as (r & calls & Hphase & _).
  rewrite (bind_Ok _ _ _ _ _ Hphase).
  destruct r as [v'|].
  2:{ intros E. inversion E; subst. left. split; [|reflexivity].
      unfold intercept_phase in Hphase.
      destruct (hasInterceptors a); [reflexivity|discriminate]. }
  unfold bind_cell.
  assert (Hadm1 : mobx (object_at (add_events calls w) adm) = Some (SlotAdministration a))
    by exact Hadm.
  rewrite (bind_Ok _ _ _ _ _ (update_adm_Ok _ _ _ _ Hadm1)).
  match goal with
  | |- context [set_object adm ?o (add_events calls w)] =>
      set (wb := set_object adm o (add_events calls w))
  end.
  unfold when at 1. unfold bind at 1.
  destruct ((let! config := generateObservablePropConfig propName in
             Object_defineProperty (adm_target a) propName config) wb)
    as [[[]|e] wd] eqn:Hdefine; [|discriminate].
  pose proof (observable_accessor_keeps_mobx _ _ _ _ _ Hdefine) as Hkeep.
  rewrite notifyPropertyAddition_events. intros E. inversion E; subst.
  right. exists v'. unfold cell_at. rewrite object_at_add_events, Hkeep.
  unfold wb. rewrite object_at_set_object_eq.
  cbn [mobx with_mobx adm_values with_values]. now rewrite lookup_insert_eq.
Qed.

(** A successful installation of a computed cell bound the cell. *)
Lemma install_computed_Ok_inv adm propName cell target a w w' :
  mobx (object_at w adm) = Some (SlotAdministration a) ->
  (bind_cell adm propName (CellComputed cell);;
   when true
     (let! config := generateComputedPropConfig propName in
      Object_defineProperty target propName config)) w = (Ok tt, w') ->
  cell_at w' adm propName = Some (CellComputed cell).
Proof.
  intros Hadm. unfold bind_cell.
  rewrite (bind_Ok _ _ _ _ _ (update_adm_Ok _ _ _ _ Hadm)).
  unfold when. intros Hdefine.
  pose proof (computed_accessor_keeps_mobx _ _ _ _ _ Hdefine) as Hkeep.
  unfold cell_at. rewrite Hkeep, object_at_set_object_eq.
  cbn [mobx with_mobx adm_values with_values]. now rewrite lookup_insert_eq.
Qed.

(** X10.  A declaration of a free name, one under which the table of
    cells gives nothing, neither a cell nor a member it inherits from
    [Object.prototype], binds when it returns the kind of cell its
    descriptor tells: a computed cell for a getter/setter pair
    and for a computed value, a value cell for everything else.  The
    value cell has the enhancer of the modifier that wraps the value, and
    the default enhancer when there is none; the computed cell of a
    getter/setter pair has them as getter and setter, compares by
    identity and is scoped to the target.  Either cell is named after the
    record and the property.  Only the declaration of a value cell can
    return without a binding, when the chain cancelled the addition. *)
Theorem declaration_binds_by_descriptor
    (adm : loc) (propName : string) (descriptor : PropertyDescriptor)
    (defaultEnhancer : IEnhancer) (a : ObservableObjectAdministration) (w w' : World) :
  mobx (object_at w adm) = Some (SlotAdministration a) ->
  table_get (adm_values a) propName = None ->
  defineObservablePropertyFromDescriptor adm propName descriptor defaultEnhancer w
  = (Ok tt, w') ->
  match cell_at w' adm propName with
  | Some (CellObservable o) =>
      descriptor_kind descriptor = ValueCell
      /\ ov_enhancer o = descriptor_enhancer descriptor defaultEnhancer
      /\ ov_name o = adm_name a +:+ "." +:+ propName
  | Some (CellComputed c) =>
      descriptor_kind descriptor = ComputedCell
      /\ cv_name c = adm_name a +:+ "." +:+ propName
      /\ match descriptor with
         | AccessorDescriptor getter setter =>
             cv_getter c = getter /\ cv_setter c = setter
             /\ cv_compareStructural c = false
             /\ cv_scope c = Some (adm_target a)
         | ValueDescriptor v =>
             exists given,
               v = VComputedValue given
               /\ cv_getter c = cv_getter given /\ cv_setter c = cv_setter given
               /\ cv_compareStructural c = cv_compareStructural given
               /\ cv_scope c = Some (default (adm_target a) (cv_scope given))
         end
  | None => descriptor_kind descriptor = ValueCell /\ hasInterceptors a = true
  end.
Proof.
  intros Hadm Hfree. unfold defineObservablePropertyFromDescriptor.
  rewrite (bind_Ok _ _ _ _ _ (read_adm_Ok _ _ _ Hadm)). rewrite Hfree.
  apply table_get_None in Hfree as [Hfree _].
  assert (Hnone : cell_at w adm propName = None).
  { unfold cell_at. now rewrite Hadm. }
  assert (Hvalue : forall v enhancer,
            descriptor_kind descriptor = ValueCell ->
            descriptor_enhancer descriptor defaultEnhancer = enhancer ->
            defineObservableProperty adm propName v enhancer true w = (Ok tt, w') ->
            match cell_at w' adm propName with
            | Some (CellObservable o) =>
                descriptor_kind descriptor = ValueCell
                /\ ov_enhancer o = descriptor_enhancer descriptor defaultEnhancer
                /\ ov_name o = adm_name a +:+ "." +:+ propName
            | Some (CellComputed c) =>
                descriptor_kind descriptor = ComputedCell
                /\ cv_name c = adm_name a +:+ "." +:+ propName
                /\ match descriptor with
                   | AccessorDescriptor getter setter =>
                       cv_getter c = getter /\ cv_setter c = setter
                       /\ cv_compareStructural c = false
                       /\ cv_scope c = Some (adm_target a)
                   | ValueDescriptor v =>
                       exists given,
                         v = VComputedValue given
                         /\ cv_getter c = cv_getter given
                         /\ cv_setter c = cv_setter given
                         /\ cv_compareStructural c = cv_compareStructural given
                         /\ cv_scope c = Some (default (adm_target a) (cv_scope given))
                   end
            | None => descriptor_kind descriptor = ValueCell /\ hasInterceptors a = true
            end).
  { intros v enhancer Hkind Henh Hrun.
    destruct (defineObservableProperty_Ok_inv _ _ _ _ _ _ _ Hadm Hrun)
      as [[Hhas Hsame]|(v' & Hcell)].
    - rewrite Hsame, Hnone. auto.
    - rewrite Hcell. cbn [ov_enhancer ov_name new_ObservableValue]. auto. }
  destruct descriptor as [v|getter setter].
  - destruct v; try (apply Hvalue; reflexivity).
    unfold defineComputedPropertyFromComputedValue.
    rewrite (bind_Ok _ _ _ _ _ (read_adm_Ok _ _ _ Hadm)). cbv zeta.
    intros Hrun. rewrite (install_computed_Ok_inv _ _ _ _ _ _ _ Hadm Hrun).
    split; [reflexivity|]. split; [reflexivity|]. exists c.
    cbn [cv_getter cv_setter cv_compareStructural cv_scope].
    repeat split. now destruct (cv_scope c).
  - unfold defineComputedProperty.
    rewrite (bind_Ok _ _ _ _ _ (read_adm_Ok _ _ _ Hadm)).
    unfold when at 1. unfold assertPropertyConfigurable.
    unfold bind at 1. unfold bind at 1. unfold gets at 1.
    destruct (isPropertyConfigurable (object_at w (adm_target a)) propName);
      [|discriminate].
    unfold invariant at 1. unfold ret at 1.
    intros Hrun. rewrite (install_computed_Ok_inv _ _ _ _ _ _ _ Hadm Hrun).
    repeat split.
Qed.

End Declarations.

(** ** Declarations of names a plain object inherits *)

Section InheritedNames.

Context {policy : CellPolicy}.

Lemma cell_at_add_events es w l p : cell_at (add_events es w) l p = cell_at w l p.
Proof. reflexivity. Qed.

(** A commit of the cell under a name that holds a value cell binds no
    name that was free. *)
Lemma commit_binds_nothing instance name cell es adm w l p :
  mobx (object_at w instance) = Some (SlotAdministration adm) ->
  adm_values adm !! name <> None ->
  cell_at w l p = None ->
  cell_at (add_events es
             (set_object instance
                (with_mobx
                   (Some (SlotAdministration
                            (with_values (<[name := cell]> (adm_values adm)) adm)))
                   (object_at w instance)) w)) l p = None.
Proof.
  intros Hadm Hbound Hfree. rewrite cell_at_add_events. unfold cell_at in *.
  destruct (decide (l = instance)) as [->|Hne].
  - rewrite object_at_set_object_eq. cbn [mobx with_mobx adm_values with_values].
    rewrite Hadm in Hfree. destruct (decide (p = name)) as [->|Hp]; [congruence|].
    now rewrite lookup_insert_ne.
  - now rewrite object_at_set_object_ne.
Qed.

Lemma setPropertyValue_binds_nothing instance name newValue w l p :
  cell_at w l p = None ->
  cell_at (exec (setPropertyValue instance name newValue) w) l p = None.
Proof.
  intros Hfree. unfold exec.
  destruct (setPropertyValue_cases instance name newValue w)
    as [[_ ->]|(adm & r & calls & Hadm & _ & _ & Hcase)]; [exact Hfree|].
  destruct r as [v'|]; [|now rewrite Hcase].
  destruct (adm_values adm !! name) as [[o|c]|] eqn:Hcell; try now rewrite Hcase.
  destruct (prepareNewValue o v') as [|v''|e]; rewrite Hcase;
    [exact Hfree| |exact Hfree].
  cbn [snd]. apply commit_binds_nothing; [exact Hadm | congruence | exact Hfree].
Qed.

Lemma call_setter_binds_nothing setter this v w l p :
  cell_at w l p = None ->
  cell_at (exec (call_setter setter this v) w) l p = None.
Proof.
  intros Hfree. destruct setter as [name|name];
    [now apply setPropertyValue_binds_nothing|].
  unfold exec, call_setter.
  destruct (mobx (object_at w this)) as [[adm|x]|] eqn:Hadm.
  2,3: unfold read_adm, read_mobx, bind, gets; now rewrite Hadm.
  rewrite (bind_Ok _ _ _ _ _ (read_adm_Ok _ _ _ Hadm)).
  destruct (adm_values adm !! name) as [[o|c]|] eqn:Hcell; [| exact Hfree..].
  unfold ObservableValue_set.
  destruct (prepareNewValue o v) as [|v'|e]; [exact Hfree| |exact Hfree].
  unfold setNewValue, bind_cell.
  rewrite (bind_Ok _ _ _ _ _ (update_adm_Ok _ _ _ _ Hadm)).
  unfold log_event, modify. cbn [snd].
  apply commit_binds_nothing; [exact Hadm | congruence | exact Hfree].
Qed.

Lemma assign_property_binds_nothing object prop v w l p :
  cell_at w l p = None ->
  cell_at (exec (assign_property object prop v) w) l p = None.
Proof.
  intros Hfree. unfold assign_property. rewrite exec_bind. unfold gets at 1.
  destruct (properties (object_at w object) !! prop) as [[x writable e c|config]|].
  - destruct writable; [|exact Hfree].
    unfold exec, modify, cell_at. cbn [snd]. now rewrite mobx_after_define.
  - now apply call_setter_binds_nothing.
  - destruct (extensible (object_at w object)); [|exact Hfree].
    unfold exec, modify, cell_at. cbn [snd]. now rewrite mobx_after_define.
Qed.

(** X19.  The first declaration of a name that [Object.prototype] has a
    member for does not install it.  The table of cells gives the
    inherited member, so the declaration goes the way of a name that is
    bound: a getter/setter pair is refused with [RedefinitionConflict]
    and the world is as it was, and a value is assigned to the property
    of the target.  No cell is bound to the name, whether the call
    returns or throws. *)
Theorem inherited_name_is_not_declared
    (adm : loc) (propName : string) (descriptor : PropertyDescriptor)
    (defaultEnhancer : IEnhancer) (a : ObservableObjectAdministration) (w : World) :
  mobx (object_at w adm) = Some (SlotAdministration a) ->
  adm_values a !! propName = None ->
  inherited propName = true ->
  defineObservablePropertyFromDescriptor adm propName descriptor defaultEnhancer w
  = match descriptor with
    | AccessorDescriptor _ _ => (Err RedefinitionConflict, w)
    | ValueDescriptor v => assign_property (adm_target a) propName v w
    end
  /\ cell_at (exec (defineObservablePropertyFromDescriptor adm propName descriptor
                      defaultEnhancer) w) adm propName = None.
Proof.
  intros Hadm Hnone Hname.
  assert (Hrun : defineObservablePropertyFromDescriptor adm propName descriptor
                   defaultEnhancer w
                 = match descriptor with
                   | AccessorDescriptor _ _ => (Err RedefinitionConflict, w)
                   | ValueDescriptor v => assign_property (adm_target a) propName v w
                   end).
  { unfold defineObservablePropertyFromDescriptor.
    rewrite (bind_Ok _ _ _ _ _ (read_adm_Ok _ _ _ Hadm)).
    unfold table_get. rewrite Hnone, Hname. now destruct descriptor. }
  split; [exact Hrun|].
  assert (Hfree : cell_at w adm propName = None).
  { unfold cell_at. now rewrite Hadm. }
  unfold exec. rewrite Hrun. destruct descriptor as [v|getter setter]; [|exact Hfree].
  now apply assign_property_binds_nothing.
Qed.

End InheritedNames.

(** ** Registering a listener *)

Section Registration.

Context {policy : CellPolicy}.


End Registration.

(** ** Registering an interceptor *)


Section Interception.

Context {policy : CellPolicy}.


End Interception.

(** ** The memo tables, once more *)

Section MemoInvariant.

Context {policy : CellPolicy}.

(** X2.  The memo tables hold, under every name, the configuration the
    generator builds for that name.  This is so at the start and is kept
    by the generators, by the router, by every installer, whether it
    returns or throws, and by the registration of listeners and
    interceptors: a table entry is written by its generator only. *)
Theorem memo_tables_invariant :
  memo_wf initial_world
  /\ forall w, memo_wf w ->
       (forall propName,
          memo_wf (exec (generateObservablePropConfig propName) w)
          /\ memo_wf (exec (generateComputedPropConfig propName) w))
       /\ (forall instance name v, memo_wf (exec (setPropertyValue instance name v) w))
       /\ (forall adm propName v enhancer asInstanceProperty,
             memo_wf (exec (defineObservableProperty adm propName v enhancer
                              asInstanceProperty) w))
       /\ (forall adm propName source asInstanceProperty,
             memo_wf (exec (installComputedCell adm propName source asInstanceProperty) w))
       /\ (forall adm propName descriptor enhancer,
             memo_wf (exec (defineObservablePropertyFromDescriptor adm propName
                              descriptor enhancer) w))
       /\ (forall adm callback fireImmediately,
             memo_wf (exec (observe adm callback fireImmediately) w))
       /\ (forall adm handler, memo_wf (exec (intercept adm handler) w)).
Proof.
  split; [apply initial_world_memo_wf|]. intros w Hw.
  destruct memo_wf_invariant as (_ & Hset & Hdecl & Hobserve & Hintercept).
  split; [intros propName; split;
          [now apply keeps_memo_generateObservablePropConfig
          |now apply keeps_memo_generateComputedPropConfig]|].
  split; [intros; now apply Hset|].
  split; [intros; now apply keeps_memo_defineObservableProperty|].
  split.
  { intros adm propName [getter setter compareStructural|computedValue] b;
      cbn [installComputedCell];
      [now apply keeps_memo_defineComputedProperty
      |now apply keeps_memo_defineComputedPropertyFromComputedValue]. }
  split; [intros; now apply Hdecl|].
  split; [intros; now apply Hobserve | intros; now apply Hintercept].
Qed.

End MemoInvariant.

(** * The scenarios *)

Ltac by_evaluation := vm_compute; reflexivity.
Ltac by_decision := apply (bool_decide_unpack _); vm_compute; exact I.

(** Scenario A with the cancelling interceptor registered: the write
    [x = 2] is cancelled. *)
Lemma setPropertyValue_veto_witness :
  setPropertyValue (policy := reference_policy) point "x" (VNumber 2) vetoed_world
  = (Ok tt, exec (interceptChange (the_adm vetoed_world point)
                    (update_of "x" (VNumber 2))) vetoed_world)
  /\ objs (exec (interceptChange (the_adm vetoed_world point)
                   (update_of "x" (VNumber 2))) vetoed_world)
     = objs vetoed_world
  /\ stored_value (exec (interceptChange (the_adm vetoed_world point)
                           (update_of "x" (VNumber 2))) vetoed_world) point "x"
     = stored_value vetoed_world point "x"
  /\ exists calls,
       log (exec (interceptChange (the_adm vetoed_world point)
                    (update_of "x" (VNumber 2))) vetoed_world)
       = (log vetoed_world ++ calls)%list
       /\ Forall is_intercept calls.
Proof.
  apply (setPropertyValue_veto_has_no_effect (policy := reference_policy)
           point "x" (VNumber 2) (the_adm vetoed_world point) vetoed_world);
    by_evaluation.
Defined.

(** Scenario C: the order of the events of the write [x = 3], which the
    interceptor rewrites to 30. *)
Lemma setPropertyValue_event_order_witness :
  exists w' change,
    setPropertyValue (policy := reference_policy) point "x" (VNumber 3) scaled_world
    = (Ok tt, w')
    /\ stored_value w' point "x" = Some (VNumber 30)
    /\ log w' =
         (log (exec (intercept_phase (the_adm scaled_world point)
                       (update_of "x" (VNumber 3))) scaled_world)
          ++ (if spyEnabled scaled_world then [EvSpyStart change] else [])
          ++ [EvCommit (ov_name point_x) (VNumber 30)]
          ++ (if hasListeners (the_adm scaled_world point)
              then map (fun l => EvNotify l change)
                     (default [] (adm_changeListeners (the_adm scaled_world point)))
              else [])
          ++ (if spyEnabled scaled_world then [EvSpyEnd] else []))%list
    /\ (spyEnabled scaled_world = true ->
        hasListeners (the_adm scaled_world point) = true ->
        default [] (adm_changeListeners (the_adm scaled_world point)) <> []
        /\ change = Some (update_change point "x" (ov_value point_x) (VNumber 30))
        /\ log w' =
             (log (exec (intercept_phase (the_adm scaled_world point)
                           (update_of "x" (VNumber 3))) scaled_world)
              ++ [EvSpyStart change]
              ++ [EvCommit (ov_name point_x) (VNumber 30)]
              ++ map (fun l => EvNotify l change)
                   (default [] (adm_changeListeners (the_adm scaled_world point)))
              ++ [EvSpyEnd])%list).
Proof.
  apply (setPropertyValue_event_order (policy := reference_policy)
           point "x" (VNumber 3) (VNumber 30) (VNumber 30)
           (the_adm scaled_world point) point_x scaled_world);
    by_evaluation.
Defined.

(** Scenario A: the write [x = 1] of the value the cell holds. *)
Lemma setPropertyValue_unchanged_witness :
  setPropertyValue (policy := reference_policy) point "x" (VNumber 1) point_world
  = (Ok tt, point_world)
  /\ objs point_world = objs point_world
  /\ stored_value point_world point "x" = Some (ov_value point_x)
  /\ exists calls, log point_world = (log point_world ++ calls)%list
                   /\ Forall is_intercept calls.
Proof.
  apply (setPropertyValue_unchanged_is_silent (policy := reference_policy)
           point "x" (VNumber 1) (VNumber 1) (the_adm point_world point) point_x
           point_world point_world);
    by_evaluation.
Defined.

(** Scenario C: the notification of the write [x = 3], which the
    interceptor rewrites to 30. *)
Lemma update_notification_witness :
  exists w' change seen,
    setPropertyValue (policy := reference_policy) point "x" (VNumber 3) scaled_world
    = (Ok tt, w')
    /\ log w' = (log scaled_world ++ seen)%list
    /\ (forall l c, In (EvNotify l c) seen <->
                    In l (default [] (adm_changeListeners (the_adm scaled_world point)))
                    /\ c = Some change)
    /\ ch_type change = update
    /\ ch_name change = "x"
    /\ ch_oldValue change = stored_value scaled_world point "x"
    /\ Some (ch_newValue change) = stored_value w' point "x"
    /\ ch_newValue change = VNumber 30.
Proof.
  apply (update_notification_content (policy := reference_policy)
           point "x" (VNumber 3) (VNumber 30) (VNumber 30)
           (the_adm scaled_world point) point_x scaled_world
           (exec (intercept_phase (the_adm scaled_world point)
                    (update_of "x" (VNumber 3))) scaled_world));
    by_evaluation.
Defined.

(** Scenario C: a write to [y], which has no cell. *)
Lemma setPropertyValue_unbound_witness :
  exists intercepted w1,
    intercept_phase (the_adm scaled_world point) (update_of "y" (VNumber 3)) scaled_world
    = (Ok intercepted, w1)
    /\ setPropertyValue (policy := reference_policy) point "y" (VNumber 3) scaled_world =
         (match intercepted with
          | Some _ => Err TypeError
          | None => Ok tt
          end, w1)
    /\ (hasInterceptors (the_adm scaled_world point) = false ->
        intercepted = Some (VNumber 3))
    /\ objs w1 = objs scaled_world
    /\ exists calls, log w1 = (log scaled_world ++ calls)%list
                     /\ Forall is_intercept calls.
Proof.
  apply (setPropertyValue_unbound_name (policy := reference_policy)
           point "y" (VNumber 3) (the_adm scaled_world point) scaled_world);
    by_evaluation.
Defined.

(** A write to a name without a cell returns as if nothing was wrong
    when the chain cancels it. *)
Lemma unbound_name_vetoed_returns :
  cell_at vetoed_world point "y" = None
  /\ fst (setPropertyValue (policy := reference_policy) point "y" (VNumber 3)
            vetoed_world) = Ok tt.
Proof. split; by_evaluation. Qed.

(** Scenario B: three more declarations, of [sum], [x] and [y]. *)
Lemma single_binding_witness :
  kinds_preserved sum_world
    (install_all (policy := reference_policy)
       [(point, "sum", ValueDescriptor (VNumber 5), deepEnhancer);
        (point, "x", AccessorDescriptor (Some sum_getter) None, deepEnhancer);
        (point, "y", ValueDescriptor (VNumber 2), deepEnhancer)]
       sum_world)
  /\ defineObservablePropertyFromDescriptor (policy := reference_policy) point "x"
       (AccessorDescriptor (Some sum_getter) None) deepEnhancer sum_world
     = (Err RedefinitionConflict, sum_world)
  /\ defineObservablePropertyFromDescriptor (policy := reference_policy) point "x"
       (ValueDescriptor (VNumber 5)) deepEnhancer sum_world
     = assign_property (policy := reference_policy)
         (adm_target (the_adm sum_world point)) "x" (VNumber 5) sum_world.
Proof.
  destruct (single_binding_from_descriptors (policy := reference_policy))
    as (Hsequence & Hrefused & Hassigned).
  split; [apply Hsequence|]. split.
  - apply (Hrefused point "x" (Some sum_getter) None deepEnhancer sum_world
             (CellObservable point_x)).
    by_evaluation.
  - apply (Hassigned point "x" (VNumber 5) deepEnhancer sum_world
             (the_adm sum_world point) (CellObservable point_x)); by_evaluation.
Defined.

(** A name bound to a computed cell is declared again with a plain
    value, which on a fresh record would bind a value cell: the call is
    not refused, it returns after the call of the computed's setter. *)
Lemma redeclaration_with_value_not_refused :
  cell_kind <$> cell_at sum_world point "sum" = Some ComputedCell
  /\ cell_kind <$>
       cell_at (exec (defineObservablePropertyFromDescriptor (policy := reference_policy)
                        point "sum" (ValueDescriptor (VNumber 5)) deepEnhancer)
                     fresh_point_world) point "sum"
     = Some ValueCell
  /\ defineObservablePropertyFromDescriptor (policy := reference_policy)
       point "sum" (ValueDescriptor (VNumber 5)) deepEnhancer sum_world
     = (Ok tt, add_events [EvComputedSet "Point.sum" (VNumber 5)] sum_world).
Proof. repeat split; by_evaluation. Qed.

(** The installers themselves do not look at what a name is bound to:
    called on a name that holds a value cell, the installer of computed
    cells binds it to a computed cell. *)
Example direct_install_rebinds :
  cell_kind <$> cell_at point_world point "x" = Some ValueCell
  /\ defineComputedProperty point "x" (Some sum_getter) None false true point_world
     = (Ok tt, exec (defineComputedProperty point "x" (Some sum_getter) None false true)
                 point_world)
  /\ cell_kind <$>
       cell_at (exec (defineComputedProperty point "x" (Some sum_getter) None false true)
                  point_world) point "x"
     = Some ComputedCell.
Proof. repeat split; by_evaluation. Qed.


(** The name of an instance of the class [Ticket]. *)
Lemma asObservableObject_name_witness :
  exists w2,
    asObservableObject (initializers := no_lazy_initializers) ticket (Some "myTicket") ticket_world
    = (Ok ticket, w2)
    /\ mobx (object_at w2 ticket) =
         Some (SlotAdministration
                 (new_ObservableObjectAdministration ticket
                    (derived_name (object_at ticket_world ticket) (Some "myTicket")
                       (mobxGuid ticket_world + 1)))).
Proof.
  apply (asObservableObject_name (initializers := no_lazy_initializers)
           ticket (Some "myTicket") ticket_world ticket_world); by_evaluation.
Defined.

(** An instance of the class [Ticket] made observable under the name
    ["myTicket"] gets the name ["Ticket@1"]. *)
Lemma supplied_name_not_used :
  administration_at ticket_world ticket = None
  /\ fst (asObservableObject (initializers := no_lazy_initializers)
            ticket (Some "myTicket") ticket_world) = Ok ticket
  /\ adm_name <$>
       administration_at
         (exec (asObservableObject (initializers := no_lazy_initializers)
                  ticket (Some "myTicket")) ticket_world) ticket
     = Some "Ticket@1"
  /\ "Ticket@1" <> "myTicket".
Proof. repeat split; try by_evaluation. discriminate. Qed.

(** Scenario C: the field [y = 4] is installed, rewritten to 40, and
    [point] has the enumerable accessor.  The field [toString = 4]
    installed likewise: the cell is bound with the value the interceptor
    left, and the property of [point] is a data property that is not
    enumerable. *)
Lemma observable_property_witness :
  ((exists w',
      defineObservableProperty (policy := reference_policy)
        point "y" (VNumber 4) deepEnhancer true scaled_world = (Ok tt, w')
      /\ cell_at w' point "y" =
           Some (CellObservable
                   (new_ObservableValue (policy := reference_policy) (VNumber 40)
                      deepEnhancer
                      (adm_name (the_adm scaled_world point) +:+ "." +:+ "y")))
      /\ exists config,
           properties (object_at w' (adm_target (the_adm scaled_world point))) !! "y"
           = Some (AccessorProperty config)
           /\ set config = SetThroughRouter "y"
           /\ enumerable config = true
           /\ configurable config = true)
   /\ (exists w' found,
         generateComputedPropConfig "y" scaled_world = (Ok found, w')
         /\ exists config, found = Entry config /\ enumerable config = false))
  /\ ((exists w',
         defineObservableProperty (policy := reference_policy)
           point "toString" (VNumber 4) deepEnhancer true scaled_world = (Ok tt, w')
         /\ cell_at w' point "toString" =
              Some (CellObservable
                      (new_ObservableValue (policy := reference_policy) (VNumber 40)
                         deepEnhancer
                         (adm_name (the_adm scaled_world point) +:+ "." +:+ "toString")))
         /\ properties (object_at w' (adm_target (the_adm scaled_world point)))
              !! "toString"
            = Some (DataProperty VUndefined false false false))
      /\ (exists w' found,
            generateComputedPropConfig "toString" scaled_world = (Ok found, w')
            /\ found = Member "toString")).
Proof.
  split.
  - apply (observable_property_is_enumerable (policy := reference_policy)
             point "y" (VNumber 4) (VNumber 40) deepEnhancer
             (the_adm scaled_world point) scaled_world
             (exec (intercept_phase (the_adm scaled_world point)
                      (addition_of "y" (VNumber 4))) scaled_world));
      first [by_evaluation | by_decision | intros _; by_evaluation].
  - apply (observable_property_is_enumerable (policy := reference_policy)
             point "toString" (VNumber 4) (VNumber 40) deepEnhancer
             (the_adm scaled_world point) scaled_world
             (exec (intercept_phase (the_adm scaled_world point)
                      (addition_of "toString" (VNumber 4))) scaled_world));
      first [by_evaluation | by_decision | intros _; by_evaluation].
Defined.

(** The predicate at [null] and at an object whose initializers make it
    observable. *)
Lemma isObservableObject_witness :
  isObservableObject (initializers := reactivating_initializers) VNull initial_world
  = (Ok false, initial_world)
  /\ exists b,
       isObservableObject (initializers := reactivating_initializers)
         (VObject point) initial_world
       = (Ok b, exec (runLazyInitializers (LazyInitializers := reactivating_initializers)
                        (VObject point)) initial_world)
       /\ (b = true <->
           exists adm,
             read_mobx (VObject point)
               (exec (runLazyInitializers (LazyInitializers := reactivating_initializers)
                        (VObject point)) initial_world)
             = (Ok (Some (SlotAdministration adm)),
                exec (runLazyInitializers (LazyInitializers := reactivating_initializers)
                        (VObject point)) initial_world)).
Proof.
  destruct (isObservableObject_spec (initializers := reactivating_initializers))
    as (_ & Hprimitive & Hobject).
  split.
  - apply (Hprimitive VNull initial_world). reflexivity.
  - apply (Hobject (VObject point) initial_world); by_evaluation.
Defined.

(** An object whose initializers have not run yet carries nothing; the
    predicate runs them and answers for what they left. *)
Example lazy_instance_is_observable :
  administration_at initial_world point = None
  /\ fst (isObservableObject (initializers := reactivating_initializers)
            (VObject point) initial_world) = Ok true.
Proof. split; by_evaluation. Qed.

(** Scenario A: writing [x = 2] yields one update notification, between
    the two reports of the trace and after the commit. *)
Example scenario_A :
  setPropertyValue (policy := reference_policy) point "x" (VNumber 2) point_world
  = (Ok tt,
     exec (bind_cell point "x"
             (CellObservable {| ov_value := VNumber 2; ov_enhancer := deepEnhancer;
                                ov_name := "Point.x" |}))
          (add_events
             [EvSpyStart (Some (update_change point "x" (VNumber 1) (VNumber 2)));
              EvCommit "Point.x" (VNumber 2);
              EvNotify 7 (Some (update_change point "x" (VNumber 1) (VNumber 2)));
              EvSpyEnd] point_world)).
Proof. by_evaluation. Qed.

(** Scenario C: with the interceptor that multiplies by ten, writing
    [x = 3] stores 30 and notifies 30. *)
Example scenario_C :
  stored_value
    (exec (setPropertyValue (policy := reference_policy) point "x" (VNumber 3))
       scaled_world) point "x" = Some (VNumber 30)
  /\ log (exec (setPropertyValue (policy := reference_policy) point "x" (VNumber 3))
            scaled_world)
     = (log scaled_world ++
        [EvIntercept 1 (update_of "x" (VNumber 3));
         EvSpyStart (Some (update_change point "x" (VNumber 1) (VNumber 30)));
         EvCommit "Point.x" (VNumber 30);
         EvNotify 7 (Some (update_change point "x" (VNumber 1) (VNumber 30)));
         EvSpyEnd])%list.
Proof. split; by_evaluation. Qed.

(** A write the cell refuses: the error of the cell is the error of the
    router, after the interceptors were called and before anything else;
    the cell keeps its value. *)
Example refused_write :
  setPropertyValue (policy := strict_policy) point "x"
    (VModifierDescriptor deepEnhancer (VNumber 2)) scaled_world
  = (Err InvariantViolation,
     add_events
       [EvIntercept 1 (update_of "x" (VModifierDescriptor deepEnhancer (VNumber 2)))]
       scaled_world)
  /\ stored_value
       (exec (setPropertyValue (policy := strict_policy) point "x"
                (VModifierDescriptor deepEnhancer (VNumber 2))) scaled_world) point "x"
     = Some (VNumber 1).
Proof. split; by_evaluation. Qed.

(** Scenario D: a target that is not extensible is refused, and nothing
    is attached to it. *)
Example scenario_D :
  let sealed := set_object point
                  {| properties := ∅; extensible := false;
                     prototype := ObjectPrototype; mobx := None |} initial_world in
  asObservableObject (initializers := no_lazy_initializers) point (Some "Point") sealed
  = (Err NotExtensible, sealed).
Proof. by_evaluation. Qed.

(** ** The further properties on the scenarios *)

(** The tables of scenario B are well formed, and stay so under one more
    write. *)
Lemma memo_tables_witness :
  memo_wf sum_world
  /\ memo_wf (exec (setPropertyValue (policy := reference_policy) point "x" (VNumber 3))
               sum_world).
Proof.
  assert (Hwf : memo_wf sum_world) by by_decision.
  split; [exact Hwf|].
  exact (proj1 (proj2 (proj2 (memo_tables_invariant (policy := reference_policy))
                         sum_world Hwf))
           point "x" (VNumber 3)).
Defined.

(** Scenario C: the field [y = 4] is installed; the interceptor rewrites
    it to 40, which is stored and notified. *)
Lemma addition_notification_witness :
  exists w' stored,
    defineObservableProperty (policy := reference_policy)
      point "y" (VNumber 4) deepEnhancer true scaled_world = (Ok tt, w')
    /\ stored = initialValue (CellPolicy := reference_policy) (VNumber 40) deepEnhancer
                  (adm_name (the_adm scaled_world point) +:+ "." +:+ "y")
    /\ stored_value w' point "y" = Some stored
    /\ log w' =
         (log (exec (intercept_phase (the_adm scaled_world point)
                       (addition_of "y" (VNumber 4))) scaled_world) ++
          addition_events (spyEnabled scaled_world)
            (default [] (adm_changeListeners (the_adm scaled_world point)))
            (if hasListeners (the_adm scaled_world point) || spyEnabled scaled_world
             then Some (add_change (adm_target (the_adm scaled_world point)) "y" stored)
             else None))%list.
Proof.
  apply (addition_notification_content (policy := reference_policy)
           point "y" (VNumber 4) (VNumber 40) deepEnhancer true
           (the_adm scaled_world point) scaled_world);
    first [by_evaluation | intros; by_evaluation].
Defined.

(** The property [id] cannot be configured: neither a value cell nor a
    computed cell is installed on it. *)
Lemma installers_refuse_witness :
  (forall newValue enhancer,
     defineObservableProperty (policy := reference_policy)
       point "id" newValue enhancer true locked_world
     = (Err PropertyNotConfigurable, locked_world))
  /\ (forall getter setter compareStructural,
        defineComputedProperty point "id" getter setter compareStructural true
          locked_world
        = (Err PropertyNotConfigurable, locked_world)).
Proof.
  apply (installers_refuse_unconfigurable (policy := reference_policy)
           point "id" (the_adm locked_world point) locked_world); by_evaluation.
Defined.

(** With the cancelling interceptor registered, the field [y = 4] is not
    installed. *)
Lemma addition_vetoed_witness :
  defineObservableProperty (policy := reference_policy)
    point "y" (VNumber 4) deepEnhancer true vetoed_world
  = (Ok tt, exec (interceptChange (the_adm vetoed_world point)
                    (addition_of "y" (VNumber 4))) vetoed_world)
  /\ objs (exec (interceptChange (the_adm vetoed_world point)
                   (addition_of "y" (VNumber 4))) vetoed_world)
     = objs vetoed_world
  /\ cell_at (exec (interceptChange (the_adm vetoed_world point)
                      (addition_of "y" (VNumber 4))) vetoed_world) point "y"
     = cell_at vetoed_world point "y"
  /\ observablePropertyConfigs
       (exec (interceptChange (the_adm vetoed_world point)
                (addition_of "y" (VNumber 4))) vetoed_world)
     = observablePropertyConfigs vetoed_world
  /\ exists calls,
       log (exec (interceptChange (the_adm vetoed_world point)
                    (addition_of "y" (VNumber 4))) vetoed_world)
       = (log vetoed_world ++ calls)%list
       /\ Forall is_intercept calls.
Proof.
  apply (addition_vetoed_is_silent (policy := reference_policy)
           point "y" (VNumber 4) deepEnhancer true
           (the_adm vetoed_world point) vetoed_world);
    first [by_evaluation | intros; by_evaluation].
Defined.

(** The target sealed: the field [y = 4] is bound and the call fails. *)
Lemma value_cell_on_sealed_witness :
  exists w',
    defineObservableProperty (policy := reference_policy)
      point "y" (VNumber 4) deepEnhancer true sealed_world = (Err TypeError, w')
    /\ cell_at w' point "y" =
         Some (CellObservable
                 (new_ObservableValue (policy := reference_policy) (VNumber 40)
                    deepEnhancer (adm_name (the_adm sealed_world point) +:+ "." +:+ "y")))
    /\ properties (object_at w' (adm_target (the_adm sealed_world point))) !! "y" = None
    /\ log w' = log (exec (intercept_phase (the_adm sealed_world point)
                             (addition_of "y" (VNumber 4))) sealed_world).
Proof.
  apply (value_cell_on_sealed_target (policy := reference_policy)
           point "y" (VNumber 4) (VNumber 40) deepEnhancer
           (the_adm sealed_world point) sealed_world); by_evaluation.
Defined.

(** The property [id] cannot be configured: a computed value is bound to
    it and the call fails. *)
Lemma computed_value_on_unconfigurable_witness :
  exists w' c,
    defineComputedPropertyFromComputedValue point "id" total_computed true locked_world
    = (Err TypeError, w')
    /\ cell_at w' point "id" = Some (CellComputed c)
    /\ cv_name c = adm_name (the_adm locked_world point) +:+ "." +:+ "id"
    /\ properties (object_at w' (adm_target (the_adm locked_world point)))
       = properties (object_at locked_world (adm_target (the_adm locked_world point)))
    /\ log w' = log locked_world.
Proof.
  apply (computed_value_on_unconfigurable point "id" total_computed
           (the_adm locked_world point) locked_world); by_evaluation.
Defined.

(** Scenario B: the declaration of [sum] by a getter and a setter. *)
Lemma declaration_witness :
  match cell_at sum_world point "sum" with
  | Some (CellObservable o) =>
      descriptor_kind (AccessorDescriptor (Some sum_getter) (Some sum_setter)) = ValueCell
      /\ ov_enhancer o
         = descriptor_enhancer (AccessorDescriptor (Some sum_getter) (Some sum_setter))
             deepEnhancer
      /\ ov_name o = adm_name (the_adm vetoed_world point) +:+ "." +:+ "sum"
  | Some (CellComputed c) =>
      descriptor_kind (AccessorDescriptor (Some sum_getter) (Some sum_setter))
      = ComputedCell
      /\ cv_name c = adm_name (the_adm vetoed_world point) +:+ "." +:+ "sum"
      /\ (cv_getter c = Some sum_getter /\ cv_setter c = Some sum_setter
          /\ cv_compareStructural c = false
          /\ cv_scope c = Some (adm_target (the_adm vetoed_world point)))
  | None =>
      descriptor_kind (AccessorDescriptor (Some sum_getter) (Some sum_setter)) = ValueCell
      /\ hasInterceptors (the_adm vetoed_world point) = true
  end.
Proof.
  apply (declaration_binds_by_descriptor (policy := reference_policy)
           point "sum" (AccessorDescriptor (Some sum_getter) (Some sum_setter))
           deepEnhancer (the_adm vetoed_world point) vetoed_world sum_world);
    by_evaluation.
Defined.

(** Scenario C: after the field [y = 4] is installed, assignments and
    further declarations are writes. *)
Lemma assignment_witness :
  exists w',
    defineObservableProperty (policy := reference_policy)
      point "y" (VNumber 4) deepEnhancer true scaled_world = (Ok tt, w')
    /\ (forall v, assign_property (policy := reference_policy) point "y" v w'
                  = setPropertyValue (policy := reference_policy) point "y" v w')
    /\ (forall v defaultEnhancer,
          plain_value v = true ->
          defineObservablePropertyFromDescriptor (policy := reference_policy)
            point "y" (ValueDescriptor v) defaultEnhancer w'
          = setPropertyValue (policy := reference_policy) point "y" v w').
Proof.
  apply (assignment_goes_through_router (policy := reference_policy)
           point "y" (VNumber 4) (VNumber 40) deepEnhancer
           (the_adm scaled_world point) scaled_world
           (exec (intercept_phase (the_adm scaled_world point)
                    (addition_of "y" (VNumber 4))) scaled_world));
    first [by_evaluation | by_decision | intros; by_evaluation].
Defined.

(** Scenario C: [x] reads 1; after a write it reads what the cell made
    of the value the interceptor left. *)
Lemma read_after_write_witness :
  get_property (evaluation := no_evaluation) point "x" scaled_world
  = (Ok (ov_value point_x), scaled_world)
  /\ forall newValue intercepted w1,
       intercept_phase (the_adm scaled_world point) (update_of "x" newValue) scaled_world
       = (Ok intercepted, w1) ->
       let w' := exec (setPropertyValue (policy := reference_policy) point "x" newValue)
                   scaled_world in
       let read :=
         match intercepted with
         | None => ov_value point_x
         | Some v' =>
             match prepareNewValue (CellPolicy := reference_policy) point_x v' with
             | UNCHANGED | Thrown _ => ov_value point_x
             | NewValue v'' => v''
             end
         end in
       get_property (evaluation := no_evaluation) point "x" w' = (Ok read, w')
       /\ stored_value w' point "x" = Some read.
Proof.
  apply (read_after_write (policy := reference_policy) (evaluation := no_evaluation)
           point "x" (observable_config "x") point_x (the_adm scaled_world point)
           scaled_world); by_evaluation.
Defined.

(** Scenario B: a write through the router to [sum], which holds a
    computed cell, is cancelled by the second interceptor; in scenario C
    the same write to the free name [y] fails. *)
Lemma setPropertyValue_failure_witness :
  (exists intercepted w1,
     intercept_phase (the_adm sum_world point) (update_of "sum" (VNumber 5)) sum_world
     = (Ok intercepted, w1)
     /\ setPropertyValue (policy := reference_policy) point "sum" (VNumber 5) sum_world
        = (match intercepted with
           | Some _ => Err TypeError
           | None => Ok tt
           end, w1)
     /\ objs w1 = objs sum_world
     /\ exists calls, log w1 = (log sum_world ++ calls)%list /\ Forall is_intercept calls)
  /\ (exists intercepted w1,
        intercept_phase (the_adm scaled_world point) (update_of "y" (VNumber 3))
          scaled_world = (Ok intercepted, w1)
        /\ setPropertyValue (policy := reference_policy) point "y" (VNumber 3)
             scaled_world
           = (match intercepted with
              | Some _ => Err TypeError
              | None => Ok tt
              end, w1)
        /\ objs w1 = objs scaled_world
        /\ exists calls,
             log w1 = (log scaled_world ++ calls)%list /\ Forall is_intercept calls).
Proof.
  split.
  - apply (setPropertyValue_failure (policy := reference_policy)
             point "sum" (VNumber 5) sum_world); by_evaluation.
  - apply (setPropertyValue_failure (policy := reference_policy)
             point "y" (VNumber 3) scaled_world); by_evaluation.
Defined.

(** The instance of [Ticket] is made observable. *)
Lemma asObservableObject_effect_witness :
  if extensible (object_at ticket_world ticket)
  then exists w2 given,
         asObservableObject (initializers := no_lazy_initializers)
           ticket (Some "myTicket") ticket_world = (Ok ticket, w2)
         /\ object_at w2 ticket
            = with_mobx
                (Some (SlotAdministration
                         (new_ObservableObjectAdministration ticket given)))
                (object_at ticket_world ticket)
         /\ (forall l, l <> ticket -> object_at w2 l = object_at ticket_world l)
         /\ mobxGuid w2
            = (if isPlainObject (object_at ticket_world ticket)
                  && negb (no_name (Some "myTicket"))
               then mobxGuid ticket_world else mobxGuid ticket_world + 1)%N
         /\ log w2 = log ticket_world
         /\ observablePropertyConfigs w2 = observablePropertyConfigs ticket_world
         /\ computedPropertyConfigs w2 = computedPropertyConfigs ticket_world
  else asObservableObject (initializers := no_lazy_initializers)
         ticket (Some "myTicket") ticket_world = (Err NotExtensible, ticket_world).
Proof.
  apply (asObservableObject_effect (initializers := no_lazy_initializers)
           ticket (Some "myTicket") ticket_world ticket_world); by_evaluation.
Defined.

(** [point] is made observable twice, the second time under another
    name. *)
Lemma asObservableObject_idempotent_witness :
  point = point
  /\ isObservableObject (initializers := no_lazy_initializers) (VObject point)
       fresh_point_world = (Ok true, fresh_point_world)
  /\ asObservableObject (initializers := no_lazy_initializers) point (Some "Other")
       fresh_point_world = (Ok point, fresh_point_world).
Proof.
  apply (asObservableObject_idempotent (initializers := no_lazy_initializers)
           point (Some "Point") (Some "Other") point (enable_spy initial_world)
           fresh_point_world); by_evaluation.
Defined.



(** Scenario A: the first declaration of [valueOf], with a value and
    with a getter. *)
Lemma inherited_name_witness :
  (defineObservablePropertyFromDescriptor (policy := reference_policy)
     point "valueOf" (ValueDescriptor (VNumber 1)) deepEnhancer point_world
   = assign_property (policy := reference_policy)
       (adm_target (the_adm point_world point)) "valueOf" (VNumber 1) point_world
   /\ cell_at (exec (defineObservablePropertyFromDescriptor (policy := reference_policy)
                       point "valueOf" (ValueDescriptor (VNumber 1)) deepEnhancer)
                 point_world) point "valueOf" = None)
  /\ (defineObservablePropertyFromDescriptor (policy := reference_policy)
        point "valueOf" (AccessorDescriptor (Some sum_getter) None) deepEnhancer
        point_world
      = (Err RedefinitionConflict, point_world)
      /\ cell_at (exec (defineObservablePropertyFromDescriptor
                          (policy := reference_policy)
                          point "valueOf" (AccessorDescriptor (Some sum_getter) None)
                          deepEnhancer) point_world) point "valueOf" = None).
Proof.
  split.
  - apply (inherited_name_is_not_declared (policy := reference_policy)
             point "valueOf" (ValueDescriptor (VNumber 1)) deepEnhancer
             (the_adm point_world point) point_world); by_evaluation.
  - apply (inherited_name_is_not_declared (policy := reference_policy)
             point "valueOf" (AccessorDescriptor (Some sum_getter) None) deepEnhancer
             (the_adm point_world point) point_world); by_evaluation.
Defined.
